(** * Channel to Asset Mapper: a shallow embedding of channel_asset_mapper.py

    The development follows the layout of the Python module:
    the string methods it relies on, the pandas frames it handles, the
    Streamlit script effects, then [iter_chunks_with_fallback],
    [load_channel_data], [process_csv_for_channel_assets],
    [extract_csv_filelikes_from_zip] and the top-level script, followed by
    the properties of each.

    Conventions.
    - A Python [str] is a [string] whose characters are code points below
      256 (Latin-1); the non-breaking space "\xa0" is character 160.
    - A pandas cell read with [dtype=str] is an [option string]: [None] is
      NaN, the value pandas stores for an empty field.
    - A [dict] with [str] keys is a [gmap string _]; its key set is [dom].
    - Calls into pandas' parsers and into [zipfile] are not part of the
      module: a file object carries what each parser configuration produces
      from it, and an archive carries its member list. *)

From Stdlib Require Import Ascii String Sorting.Sorted Permutation.
From stdpp Require Import gmap strings list pretty.

Open Scope string_scope.
Open Scope list_scope.

(** ** Python string methods *)

Module Str.

(** "\xa0" *)
Definition nbsp : ascii := ascii_of_N 160.

(** [c.isspace()] for a code point below 256: TAB..CR, FS..US, space,
    NEL (0x85) and the non-breaking space. *)
Definition isspace (c : ascii) : bool :=
  let n := N_of_ascii c in
  ((9 <=? n) && (n <=? 13) || (28 <=? n) && (n <=? 32)
   || (n =? 133) || (n =? 160))%N.

(** [c.lower()] for a code point below 256: A..Z and the accented capitals
    0xC0..0xDE (the multiplication sign 0xD7 apart) move up by 32. *)
Definition lower_char (c : ascii) : ascii :=
  let n := N_of_ascii c in
  if ((65 <=? n) && (n <=? 90)
      || (192 <=? n) && (n <=? 222) && negb (n =? 215))%N
  then ascii_of_N (n + 32) else c.

Fixpoint lower (s : string) : string :=
  match s with
  | EmptyString => EmptyString
  | String c s' => String (lower_char c) (lower s')
  end.

(** [s.replace(old, new)] for one-character [old] and [new]. *)
Fixpoint replace (old new : ascii) (s : string) : string :=
  match s with
  | EmptyString => EmptyString
  | String c s' =>
      String (if Ascii.eqb c old then new else c) (replace old new s')
  end.

Fixpoint lstrip (s : string) : string :=
  match s with
  | EmptyString => EmptyString
  | String c s' => if isspace c then lstrip s' else s
  end.

Fixpoint rstrip (s : string) : string :=
  match s with
  | EmptyString => EmptyString
  | String c s' =>
      match rstrip s' with
      | EmptyString => if isspace c then EmptyString else String c EmptyString
      | t => String c t
      end
  end.

(** [s.strip()] *)
Definition strip (s : string) : string := rstrip (lstrip s).

(** [s.startswith(p)] *)
Fixpoint startswith (s p : string) : bool :=
  match p, s with
  | EmptyString, _ => true
  | String _ _, EmptyString => false
  | String a p', String b s' => Ascii.eqb a b && startswith s' p'
  end.

(** [s.endswith(p)] *)
Fixpoint endswith (s p : string) : bool :=
  String.eqb s p ||
  match s with
  | EmptyString => false
  | String _ s' => endswith s' p
  end.

(** [sub in s] *)
Fixpoint contains (sub s : string) : bool :=
  startswith s sub ||
  match s with
  | EmptyString => false
  | String _ s' => contains sub s'
  end.

(** [os.path.basename(p)] (posixpath): what follows the last "/". *)
Fixpoint basename (p : string) : string :=
  match p with
  | EmptyString => EmptyString
  | String c p' =>
      if contains "/" p' then basename p'
      else if Ascii.eqb c "/" then p' else p
  end.

(** Truth value of a [str]: non-empty. *)
Definition truthy (s : string) : bool :=
  match s with EmptyString => false | _ => true end.

(** The ends and the characters of a string, for stating properties. *)
Definition first_char (s : string) : option ascii :=
  match s with EmptyString => None | String c _ => Some c end.

Fixpoint last_char (s : string) : option ascii :=
  match s with
  | EmptyString => None
  | String c EmptyString => Some c
  | String _ s' => last_char s'
  end.

Fixpoint chars (s : string) : list ascii :=
  match s with
  | EmptyString => []
  | String c s' => c :: chars s'
  end.

End Str.

(** ** pandas frames *)

(** A cell of a frame read with [dtype=str]; [None] is NaN. *)
Definition cell : Type := option string.

(** A frame: its column count ([df.shape[1]]) and its rows in order. *)
Record DataFrame := mkDataFrame {
  shape1 : nat;
  rows : list (list cell)
}.

(** Cell [j] of a row.  Frames are rectangular, so [j < shape1] is always
    in range; a position with no data is NaN. *)
Definition iloc (row : list cell) (j : nat) : cell :=
  match row !! j with
  | Some c => c
  | None => None
  end.

(** [.astype(str)] on one cell: NaN becomes the text "nan". *)
Definition astype_str (c : cell) : string :=
  match c with
  | Some s => s
  | None => "nan"
  end.

(** [.astype(str).str.replace("\xa0", " ").str.strip()] on one cell. *)
Definition clean (c : cell) : string :=
  Str.strip (Str.replace Str.nbsp " " (astype_str c)).

(** ** Streamlit script effects

    A script run writes elements to the page and may end early with
    [st.stop()].  [st.stop()] raises a control-flow exception that derives
    from [BaseException], so no [except Exception] clause intercepts it. *)

Inductive st_event :=
| st_error (msg : string)
| st_warning (msg : string)
| st_info (msg : string)
| st_success (msg : string)
| st_write (msg : string)
| st_metric (label : string) (value : nat).

Inductive outcome (A : Type) :=
| Ret (a : A)
| Stopped.
Arguments Ret {A} a.
Arguments Stopped {A}.

Definition Script (A : Type) : Type := list st_event * outcome A.

Definition ret {A} (a : A) : Script A := ([], Ret a).

Definition bind {A B} (m : Script A) (f : A -> Script B) : Script B :=
  match m with
  | (ev, Ret a) => let '(ev', r) := f a in (ev ++ ev', r)
  | (ev, Stopped) => (ev, Stopped)
  end.

Definition emit (e : st_event) : Script unit := ([e], Ret tt).

Definition st_stop {A} : Script A := ([], Stopped).

Notation "x <- m ;; k" := (bind m (fun x => k))
  (at level 100, m at next level, right associativity).
Notation "m ;;; k" := (bind m (fun _ => k))
  (at level 100, right associativity).

(** ** Settings *)

Definition MAX_CSV_FILES : nat := 12.

(** Rows per chunk; it only decides where a reader cuts its chunks. *)
Definition CHUNK_SIZE : N := 200000.

(** ** Robust chunk reader *)

(** The parsing engines of [pd.read_csv]. *)
Inductive engine := engine_c | engine_python.

(** What iterating a chunked reader (or a generator of chunks) does: hand
    out a chunk and go on, finish, or raise.  A reader whose construction
    already raises is [Raise] with no chunk before it. *)
Inductive reader :=
| StopIteration
| Yield (chunk : DataFrame) (rest : reader)
| Raise (e : string).

(** An uploaded file or an archive member wrapped in [BytesIO]: its display
    name is kept beside it by the callers; [read_csv engine sep] is the
    reader [pd.read_csv] builds over the file from position 0 with
    [header=None], [skiprows=0], [dtype=str], [low_memory=False],
    [on_bad_lines="skip"] and the
    given [engine] and [sep] ([None] asks for delimiter detection). *)
Record file_like := mkFile {
  read_csv : engine -> option string -> reader
}.

(** [make_reader]: seek to the start, then build the reader. *)
Definition make_reader (f : file_like) (e : engine) (sep : option string)
  : reader :=
  read_csv f e sep.

(** The first attempt of the generator: every chunk of [r] is yielded as it
    comes; a normal end returns; any exception falls through to [fallback]. *)
Fixpoint first_attempt (r fallback : reader) : reader :=
  match r with
  | StopIteration => StopIteration
  | Yield chunk rest => Yield chunk (first_attempt rest fallback)
  | Raise _ => fallback
  end.

Definition iter_chunks_with_fallback (f : file_like) : reader :=
  first_attempt (make_reader f engine_c (Some ","))
                (make_reader f engine_python None).

(** ** Business helpers *)

(** What [pd.read_excel(excel_file, header=None, dtype=str)] does with the
    uploaded workbook: raise, or return a frame. *)
Definition excel_file : Type := string + DataFrame.

(** The body of the loop over [zip(channel_ids, channel_names)]. *)
Definition add_channel (channel_dict : gmap string string) (row : list cell)
  : gmap string string :=
  let cid := clean (iloc row 0) in
  let cname := clean (iloc row 1) in
  if Str.truthy cid && negb (String.eqb (Str.lower cid) "nan")
     && Str.truthy cname && negb (String.eqb (Str.lower cname) "nan")
  then <[cid := cname]> channel_dict
  else channel_dict.

Definition load_channel_data (f : excel_file)
  : Script (gmap string string) :=
  match f with
  | inl e =>
      emit (st_error ("Error reading Excel file: " +:+ e)) ;;; ret ∅
  | inr df =>
      if (shape1 df <? 2)%nat then
        emit (st_error
          "Excel file must have at least 2 columns: Channel ID and Channel Name") ;;;
        ret ∅
      else ret (foldl add_channel ∅ (rows df))
  end.

(** One row of the frames the module produces, with columns
    "Asset ID", "Channel ID", "Channel Name".  The name comes from
    [Series.map(channel_dict)], which leaves NaN for a key the dict lacks. *)
Record mapping := mkMapping {
  Asset_ID : string;
  Channel_ID : string;
  Channel_Name : cell
}.

Global Instance mapping_eq_dec : EqDecision mapping.
Proof. solve_decision. Defined.

Definition ASSET_COL_IDX : nat := 3.
Definition CHANNEL_COL_IDX : nat := 6.

(** The two cleaned columns of a chunk, row by row (the other columns are
    never read again). *)
Definition cleaned_columns (chunk : DataFrame) : list (string * string) :=
  map (fun row => (clean (iloc row ASSET_COL_IDX),
                   clean (iloc row CHANNEL_COL_IDX)))
      (rows chunk).

(** [chunk[chunk[CHANNEL_COL_IDX].isin(channel_ids_set)]] *)
Definition filtered_rows (channel_ids_set : gset string) (chunk : DataFrame)
  : list (string * string) :=
  filter (fun p => p.2 ∈ channel_ids_set) (cleaned_columns chunk).

(** [subset]: the two columns renamed, and the name looked up. *)
Definition subset_of (channel_dict : gmap string string)
  (filtered : list (string * string)) : list mapping :=
  map (fun p => mkMapping p.1 p.2 (channel_dict !! p.2)) filtered.

(** The body of the loop over the chunks: [results] after one chunk. *)
Definition loop_body (channel_dict : gmap string string)
  (results : list (list mapping)) (chunk : DataFrame) : list (list mapping) :=
  if (shape1 chunk <=? Nat.max ASSET_COL_IDX CHANNEL_COL_IDX)%nat then results
  else
    match filtered_rows (dom channel_dict) chunk with
    | [] => results
    | filtered => results ++ [subset_of channel_dict filtered]
    end.

(** The [for chunk in ...] loop: [inl e] when the generator raises [e]. *)
Fixpoint for_chunks (channel_dict : gmap string string) (g : reader)
  (results : list (list mapping)) : string + list (list mapping) :=
  match g with
  | StopIteration => inr results
  | Yield chunk rest =>
      for_chunks channel_dict rest (loop_body channel_dict results chunk)
  | Raise e => inl e
  end.

Definition process_csv_for_channel_assets (f : file_like)
  (display_name : string) (channel_dict : gmap string string)
  : Script (option (list mapping)) :=
  match for_chunks channel_dict (iter_chunks_with_fallback f) [] with
  | inl e =>
      emit (st_warning ("Error reading " +:+ display_name +:+ ": " +:+ e)) ;;;
      ret None
  | inr [] => ret None
  | inr results => ret (Some (concat results))
  end.

(** ** ZIP handling *)

(** A member of an archive: its name, [info.is_dir()], and what
    [z.read(info)] does (raise, or give the bytes, here already wrapped).
    [is_dir] is the answer for a member with a non-empty name; on a member
    whose name is empty, [is_dir()] raises [IndexError] up to Python 3.11,
    and the properties of the extraction that return its result are stated
    for archives without such a member. *)
Record ZipInfo := mkZipInfo {
  filename : string;
  is_dir : bool;
  read : string + file_like
}.

(** What [zipfile.ZipFile(io.BytesIO(zip_bytes))] does: raise, or open the
    archive, whose [infolist()] is the member list in archive order. *)
Definition zip_bytes : Type := string + list ZipInfo.

Fixpoint extract_loop (infolist : list ZipInfo)
  (csv_items : list (string * file_like))
  : string + list (string * file_like) :=
  match infolist with
  | [] => inr csv_items
  | info :: rest =>
      if is_dir info then extract_loop rest csv_items
      else
        let name := filename info in
        let base := Str.basename name in
        if negb (Str.truthy base) then extract_loop rest csv_items
        else if Str.startswith base "__MACOSX" || Str.contains "/__MACOSX" name
        then extract_loop rest csv_items
        else if Str.startswith base "." then extract_loop rest csv_items
        else if Str.endswith (Str.lower base) ".csv" then
          match read info with
          | inl e => inl e
          | inr data => extract_loop rest (csv_items ++ [(base, data)])
          end
        else extract_loop rest csv_items
  end.

Definition extract_csv_filelikes_from_zip (z : zip_bytes)
  : string + list (string * file_like) :=
  match z with
  | inl e => inl e
  | inr infolist => extract_loop infolist []
  end.

(** ** Aggregation of the per-file frames *)

Definition pair_of (r : mapping) : string * string :=
  (Asset_ID r, Channel_ID r).

(** [drop_duplicates(subset=["Asset ID", "Channel ID"])], which keeps the
    first row of each pair. *)
Fixpoint drop_duplicates_from (seen : gset (string * string))
  (df : list mapping) : list mapping :=
  match df with
  | [] => []
  | r :: rest =>
      if decide (pair_of r ∈ seen) then drop_duplicates_from seen rest
      else r :: drop_duplicates_from ({[pair_of r]} ∪ seen) rest
  end.

Definition drop_duplicates (df : list mapping) : list mapping :=
  drop_duplicates_from ∅ df.

(** Order of one sort column: strings by code point, NaN last. *)
Definition cell_compare (a b : cell) : comparison :=
  match a, b with
  | Some x, Some y => String.compare x y
  | Some _, None => Lt
  | None, Some _ => Gt
  | None, None => Eq
  end.

(** Order of the sort key ("Channel Name", "Asset ID"). *)
Definition key_leb (r1 r2 : mapping) : bool :=
  match cell_compare (Channel_Name r1) (Channel_Name r2) with
  | Lt => true
  | Gt => false
  | Eq => String.leb (Asset_ID r1) (Asset_ID r2)
  end.

Fixpoint insert_row (r : mapping) (df : list mapping) : list mapping :=
  match df with
  | [] => [r]
  | x :: rest => if key_leb r x then r :: df else x :: insert_row r rest
  end.

(** [sort_values(["Channel Name", "Asset ID"])]: ascending; sorting on
    several columns is a stable lexicographic sort, so rows with equal keys
    keep their order. *)
Definition sort_values (df : list mapping) : list mapping :=
  foldr insert_row [] df.

(** [Series.nunique()] of a column of strings. *)
Definition nunique (col : list string) : nat := length (remove_dups col).

(** The frame built from [all_results] at the end of a run. *)
Definition final_df (all_results : list (list mapping)) : list mapping :=
  sort_values (drop_duplicates (concat all_results)).

(** ** Main script *)

(** A file received through [st.file_uploader]. *)
Record UploadedFile := mkUpload {
  name : string;
  content : file_like
}.

(** The widgets' state for one run of the script. *)
Record widgets := mkWidgets {
  uploaded_excel : option excel_file;
  uploaded_csvs : list UploadedFile;
  uploaded_zip : option zip_bytes;
  generate_clicked : bool
}.

(** The cap on the multi-file selection. *)
Definition enforce_max (uploaded_csvs : list UploadedFile) : Script unit :=
  match uploaded_csvs with
  | [] => ret tt
  | _ =>
      if (MAX_CSV_FILES <? length uploaded_csvs)%nat then
        emit (st_error ("Maximum " +:+ pretty MAX_CSV_FILES
                        +:+ " CSV files allowed. You selected "
                        +:+ pretty (length uploaded_csvs) +:+ ".")) ;;;
        st_stop
      else ret tt
  end.

(** [input_csv_items]: from the archive when there is one, else from the
    directly uploaded files. *)
Definition prepare_inputs (w : widgets) : Script (list (string * file_like)) :=
  match uploaded_zip w with
  | Some zb =>
      match extract_csv_filelikes_from_zip zb with
      | inl e => emit (st_error ("Could not read ZIP file: " +:+ e)) ;;; st_stop
      | inr [] => emit (st_error "The ZIP file contains no .csv files.") ;;; st_stop
      | inr extracted =>
          if (MAX_CSV_FILES <? length extracted)%nat then
            emit (st_error ("ZIP contains " +:+ pretty (length extracted)
                            +:+ " CSVs. Maximum allowed: "
                            +:+ pretty MAX_CSV_FILES +:+ ".")) ;;;
            st_stop
          else
            emit (st_info ("Found " +:+ pretty (length extracted)
                           +:+ " CSV files in ZIP.")) ;;;
            ret extracted
      end
  | None =>
      match uploaded_csvs w with
      | [] => ret []
      | csvs => ret (map (fun f => (name f, content f)) csvs)
      end
  end.

(** The loop over [input_csv_items]. *)
Fixpoint process_files (channel_dict : gmap string string)
  (items : list (string * file_like)) (all_results : list (list mapping))
  : Script (list (list mapping)) :=
  match items with
  | [] => ret all_results
  | (display_name, f) :: rest =>
      res <- process_csv_for_channel_assets f display_name channel_dict ;;
      all_results' <-
        match res with
        | Some (r :: df) =>
            emit (st_write ("✅ Found " +:+ pretty (length (r :: df))
                            +:+ " matches in " +:+ display_name)) ;;;
            ret (all_results ++ [r :: df])
        | _ =>
            emit (st_write ("⚪ No matches in " +:+ display_name)) ;;;
            ret all_results
        end ;;
      process_files channel_dict rest all_results'
  end.

(** What follows the click on "Generate Mapping"; the value is the frame
    shown and offered for download. *)
Definition generate (w : widgets) (input_csv_items : list (string * file_like))
  : Script (list mapping) :=
  match uploaded_excel w with
  | None =>
      emit (st_error "Please upload the Channel list Excel file first.") ;;;
      st_stop
  | Some excel =>
      match input_csv_items with
      | [] =>
          emit (st_error
            "Please upload CSV files or a ZIP containing CSV files.") ;;;
          st_stop
      | _ =>
          channel_dict <- load_channel_data excel ;;
          emit (st_success ("Loaded " +:+ pretty (size channel_dict)
                            +:+ " channel IDs with names.")) ;;;
          if decide (channel_dict = ∅) then
            emit (st_error "No valid channel data found in the Excel file.") ;;;
            st_stop
          else
            all_results <- process_files channel_dict input_csv_items [] ;;
            match all_results with
            | [] =>
                emit (st_warning
                  "No matching channel IDs found in any of the uploaded files.") ;;;
                st_stop
            | _ =>
                let df := final_df all_results in
                emit (st_success ("### Found " +:+ pretty (length df)
                                  +:+ " unique Asset-Channel mappings")) ;;;
                emit (st_metric "Total Mappings" (length df)) ;;;
                emit (st_metric "Unique Assets"
                                (nunique (map Asset_ID df))) ;;;
                emit (st_metric "Unique Channels"
                                (nunique (map Channel_ID df))) ;;;
                ret df
            end
      end
  end.

(** One run of the script.  The value is [None] when the button was not
    clicked, else the final frame.  Page furniture (title, captions, the
    preview expander, the progress bar, the rendering of the final frame and
    of the download button) writes nothing the properties below look at and
    is left out. *)
Definition main (w : widgets) : Script (option (list mapping)) :=
  enforce_max (uploaded_csvs w) ;;;
  input_csv_items <- prepare_inputs w ;;
  if generate_clicked w then
    df <- generate w input_csv_items ;;
    ret (Some df)
  else ret None.

(** ** Vocabulary of the specification *)

(** The normalization the specification applies to a value that is present:
    non-breaking spaces become ordinary spaces, then the ends are trimmed. *)
Definition normalize (s : string) : string :=
  Str.strip (Str.replace Str.nbsp " " s).

(** The validation of an identifier or a label: non-empty, and not "nan" in
    any letter case. *)
Definition valid_text (s : string) : Prop :=
  s ≠ "" ∧ Str.lower s ≠ "nan".

Global Instance valid_text_dec s : Decision (valid_text s).
Proof. unfold valid_text. apply _. Defined.

(** Neither end of the string is a whitespace character. *)
Definition trimmed (s : string) : Prop :=
  (∀ c, Str.first_char s = Some c → Str.isspace c = false) ∧
  (∀ c, Str.last_char s = Some c → Str.isspace c = false).

(** What the Identifier Mapping promises of each key and each value. *)
Definition normalized (s : string) : Prop :=
  valid_text s ∧ (Str.nbsp ∉ Str.chars s) ∧ trimmed s.

(** The chunks a reader hands out before it ends, and their rows. *)
Fixpoint chunks (r : reader) : list DataFrame :=
  match r with
  | StopIteration => []
  | Yield chunk rest => chunk :: chunks rest
  | Raise _ => []
  end.

Definition delivered_rows (r : reader) : list (list cell) :=
  concat (map rows (chunks r)).

(** The exception that ends a reader, if one does. *)
Fixpoint reader_error (r : reader) : option string :=
  match r with
  | StopIteration => None
  | Yield _ rest => reader_error rest
  | Raise e => Some e
  end.

(** The identifier cell of a row holds a value whose normalization is a key
    of the mapping; an absent cell matches nothing. *)
Definition identifier_matches (channel_dict : gmap string string)
  (row : list cell) : Prop :=
  match iloc row CHANNEL_COL_IDX with
  | Some s => normalize s ∈ dom channel_dict
  | None => False
  end.

Global Instance identifier_matches_dec channel_dict row :
  Decision (identifier_matches channel_dict row).
Proof.
  unfold identifier_matches. destruct (iloc row CHANNEL_COL_IDX); apply _.
Defined.

(** The identifier cell of a row is absent, or blank once normalized. *)
Definition identifier_blank (row : list cell) : Prop :=
  match iloc row CHANNEL_COL_IDX with
  | Some s => normalize s = ""
  | None => True
  end.

(** The Match Record of a row: both values cleaned, the label looked up. *)
Definition match_record (channel_dict : gmap string string)
  (row : list cell) : mapping :=
  mkMapping (clean (iloc row ASSET_COL_IDX))
            (clean (iloc row CHANNEL_COL_IDX))
            (channel_dict !! clean (iloc row CHANNEL_COL_IDX)).

(** The order of the Result Table: by label, then by extracted value. *)
Definition key_le (r1 r2 : mapping) : Prop := key_leb r1 r2 = true.

(** ** Inputs used in the examples *)

(** A workbook for the examples: a padded identifier, an empty row, a
    repeated identifier and a row without a label. *)
Definition sample_workbook : excel_file :=
  inr (mkDataFrame 2
    [ [Some " UC1 "; Some "First"];
      [None; Some "x"];
      [Some "UC2"; Some "Second"];
      [Some "UC1"; Some "Renamed"];
      [Some "UC1"; None] ]).


Definition sample_dict : gmap string string :=
  <["UC1" := "Renamed"]> (<["UC2" := "Second"]> ∅).

(** A seven-column row with the given asset and channel cells. *)
Definition data_row (asset channel : cell) : list cell :=
  [Some "video"; None; None; asset; None; None; channel].

Definition chunk_1 : DataFrame :=
  mkDataFrame 7 [data_row (Some "A1") (Some "UC1")].

Definition chunk_2 : DataFrame :=
  mkDataFrame 7 [data_row (Some "A2") (Some " UC2 ")].

Definition blank_chunk : DataFrame :=
  mkDataFrame 7 [data_row (Some "A3") None; data_row (Some "A4") (Some "  ")].

(** The message of the [ValueError] with which pandas refuses to build a
    reader for [engine="python"] when [low_memory=False] is passed, as
    [make_reader] does for both engines: the option belongs to the C engine
    only. *)
Definition low_memory_error : string :=
  "The 'low_memory' option is not supported with the 'python' engine".

(** A file as [make_reader] sees it: [strict] is its C-engine reader, and
    the Python-engine reader is refused before a row is read. *)
Definition file_of (strict : reader) : file_like :=
  mkFile (fun e _ =>
    match e with
    | engine_c => strict
    | engine_python => Raise low_memory_error
    end).

(** A comma-separated file with a quote left open after its first chunk: the
    C engine hands out the first chunk and then raises. *)
Definition open_quote_csv : file_like :=
  file_of
    (Yield chunk_1
       (Raise "Error tokenizing data. C error: EOF inside string starting at row 1")).

(** A well-formed file of one chunk. *)
Definition plain_csv : file_like :=
  file_of (Yield chunk_1 StopIteration).

(** An empty file: the C engine finds no columns. *)
Definition unreadable_csv : file_like :=
  file_of (Raise "No columns to parse from file").

(** An archive whose only member lies in a top-level "__MACOSX" folder, and
    the same member one folder down. *)
Definition macosx_archive : zip_bytes :=
  inr [mkZipInfo "__MACOSX/report.csv" false (inr plain_csv)].

Definition nested_macosx_archive : zip_bytes :=
  inr [mkZipInfo "export/__MACOSX/report.csv" false (inr plain_csv)].

(** An archive with one report, a folder entry, a hidden file, a text file
    and the resource fork macOS stores beside the report. *)
Definition sample_archive : zip_bytes :=
  inr [mkZipInfo "reports/" true (inr plain_csv);
       mkZipInfo "reports/January.CSV" false (inr plain_csv);
       mkZipInfo "reports/.hidden.csv" false (inr plain_csv);
       mkZipInfo "reports/notes.txt" false (inr plain_csv);
       mkZipInfo "__MACOSX/reports/._January.CSV" false (inr plain_csv)].

(** A run with the sample archive and, beside it, the given direct uploads. *)
Definition run_with_archive (csvs : list UploadedFile) : widgets :=
  mkWidgets (Some sample_workbook) csvs (Some sample_archive) true.

Definition thirteen_uploads : list UploadedFile :=
  replicate 13 (mkUpload "extra.csv" plain_csv).

(** ** Vocabulary of the further properties *)

(** The records one chunk contributes to a file's frame. *)
Definition chunk_records (channel_dict : gmap string string)
  (chunk : DataFrame) : list mapping :=
  concat (loop_body channel_dict [] chunk).

(** The test the extraction loop applies to a member before reading it. *)
Definition eligible (info : ZipInfo) : bool :=
  let base := Str.basename (filename info) in
  negb (is_dir info)
  && Str.truthy base
  && negb (Str.startswith base "__MACOSX"
           || Str.contains "/__MACOSX" (filename info))
  && negb (Str.startswith base ".")
  && Str.endswith (Str.lower base) ".csv".

(** The per-file status lines of the page. *)
Definition is_write (e : st_event) : bool :=
  match e with
  | st_write _ => true
  | _ => false
  end.

(** The texts the loader's validation rejects. *)
Definition rejected_texts : list string :=
  [""; "nan"; "naN"; "nAn"; "nAN"; "Nan"; "NaN"; "NAn"; "NAN"].

(** A file whose strict reader completes. *)
Definition two_chunk_csv : file_like :=
  file_of (Yield chunk_1 (Yield chunk_2 StopIteration)).

(** A chunk with too few columns for the two positions. *)
Definition narrow_chunk : DataFrame :=
  mkDataFrame 3 [[Some "UC1"; Some "A1"; Some "x"]].

Definition narrow_csv : file_like :=
  file_of (Yield narrow_chunk StopIteration).

(** The input file a member gives when it is kept and can be read. *)
Definition member_item (info : ZipInfo) : option (string * file_like) :=
  match read info with
  | inr data => Some (Str.basename (filename info), data)
  | inl _ => None
  end.

(** An archive whose second report cannot be decompressed. *)
Definition damaged_archive : list ZipInfo :=
  [mkZipInfo "a.csv" false (inr plain_csv);
   mkZipInfo "b.csv" false (inl "Bad CRC-32 for file 'b.csv'");
   mkZipInfo "c.csv" false (inr plain_csv)].

(** An archive whose damaged member is not a report. *)
Definition harmless_archive : list ZipInfo :=
  [mkZipInfo "a.csv" false (inr plain_csv);
   mkZipInfo "notes.txt" false (inl "Bad CRC-32 for file 'notes.txt'");
   mkZipInfo "sub/c.CSV" false (inr two_chunk_csv)].

(** A run with two direct uploads, the second of which is unreadable. *)
Definition run_with_uploads : widgets :=
  mkWidgets (Some sample_workbook)
            [mkUpload "report.csv" two_chunk_csv;
             mkUpload "broken.csv" unreadable_csv]
            None true.

(** The same uploads with a reference table of one column. *)
Definition run_with_bad_table : widgets :=
  mkWidgets (Some (inr (mkDataFrame 1 [[Some "UC1"]])))
            [mkUpload "report.csv" two_chunk_csv]
            None true.
(** * Properties *)

(** ** Facts about the string methods *)

Section str_facts.

Lemma truthy_nonempty s : Str.truthy s = true ↔ s ≠ "".
Proof. destruct s; simpl; split; congruence. Qed.

Lemma lstrip_first s c :
  Str.first_char (Str.lstrip s) = Some c → Str.isspace c = false.
Proof.
  induction s as [|a s IH]; simpl; [discriminate|].
  destruct (Str.isspace a) eqn:Ha; [exact IH|].
  simpl. intros [= <-]. exact Ha.
Qed.

Lemma rstrip_first s c :
  Str.first_char (Str.rstrip s) = Some c → Str.first_char s = Some c.
Proof.
  destruct s as [|a s]; simpl; [discriminate|].
  destruct (Str.rstrip s); [destruct (Str.isspace a)|]; simpl; congruence.
Qed.

Lemma rstrip_last s c :
  Str.last_char (Str.rstrip s) = Some c → Str.isspace c = false.
Proof.
  induction s as [|a s IH]; simpl; [discriminate|].
  destruct (Str.rstrip s) as [|b t] eqn:Hr.
  - destruct (Str.isspace a) eqn:Ha; simpl; [discriminate|].
    intros [= <-]. exact Ha.
  - simpl. exact IH.
Qed.

Lemma strip_trimmed s : trimmed (Str.strip s).
Proof.
  split; intros c Hc.
  - apply (lstrip_first s), rstrip_first, Hc.
  - apply (rstrip_last (Str.lstrip s)), Hc.
Qed.

Lemma lstrip_chars s c : c ∈ Str.chars (Str.lstrip s) → c ∈ Str.chars s.
Proof.
  induction s as [|a s IH]; simpl; [done|].
  destruct (Str.isspace a); simpl; [|done].
  intros H. right. by apply IH.
Qed.

Lemma rstrip_chars s c : c ∈ Str.chars (Str.rstrip s) → c ∈ Str.chars s.
Proof.
  induction s as [|a s IH]; simpl; [done|].
  destruct (Str.rstrip s) as [|b t] eqn:Hr.
  - destruct (Str.isspace a); simpl; [by intros ?%elem_of_nil|].
    intros ->%list_elem_of_singleton. left.
  - intros [->|H]%elem_of_cons; [left|right; by apply IH].
Qed.

Lemma replace_chars old new s :
  old ≠ new → old ∉ Str.chars (Str.replace old new s).
Proof.
  intros Hne. induction s as [|a s IH]; simpl; [apply not_elem_of_nil|].
  apply not_elem_of_cons. split; [|exact IH].
  destruct (Ascii.eqb_spec a old); congruence.
Qed.

Lemma normalize_no_nbsp s : Str.nbsp ∉ Str.chars (normalize s).
Proof.
  intros H. apply rstrip_chars, lstrip_chars in H.
  by apply replace_chars in H.
Qed.

Lemma clean_normalize c : clean c = normalize (astype_str c).
Proof. reflexivity. Qed.

(** A cleaned cell that passes the loader's test is normalized. *)
Lemma clean_normalized c :
  Str.truthy (clean c) = true →
  String.eqb (Str.lower (clean c)) "nan" = false →
  normalized (clean c).
Proof.
  intros Ht Hn. repeat split.
  - by apply truthy_nonempty.
  - by apply String.eqb_neq.
  - apply normalize_no_nbsp.
  - apply strip_trimmed.
  - apply strip_trimmed.
Qed.

Lemma lower_char_n c :
  Str.lower_char c = "n"%char → c = "n"%char ∨ c = "N"%char.
Proof.
  destruct c as [[] [] [] [] [] [] [] []]; vm_compute; intros H;
    first [discriminate H | by left | by right].
Qed.

Lemma lower_char_a c :
  Str.lower_char c = "a"%char → c = "a"%char ∨ c = "A"%char.
Proof.
  destruct c as [[] [] [] [] [] [] [] []]; vm_compute; intros H;
    first [discriminate H | by left | by right].
Qed.

(** The strings the test [s.lower() != "nan"] rejects. *)
Lemma lower_nan_iff s :
  Str.lower s = "nan" ↔
  s ∈ ["nan"; "naN"; "nAn"; "nAN"; "Nan"; "NaN"; "NAn"; "NAN"].
Proof.
  split.
  - destruct s as [|c1 [|c2 [|c3 [|c4 s]]]]; simpl; try discriminate.
    intros [= H1 H2 H3].
    apply lower_char_n in H1, H3. apply lower_char_a in H2.
    destruct H1 as [-> | ->], H2 as [-> | ->], H3 as [-> | ->];
      set_solver.
  - intros H. repeat (apply elem_of_cons in H as [-> | H]; [reflexivity|]).
    by apply elem_of_nil in H.
Qed.

End str_facts.

(** ** The reference table loader *)

Section loader.

Implicit Types (d : gmap string string) (row : list cell).

(** The test guarding the insertion, read as the validation of both
    sides of the row. *)
Lemma add_channel_valid d row :
  valid_text (clean (iloc row 0)) → valid_text (clean (iloc row 1)) →
  add_channel d row = <[clean (iloc row 0) := clean (iloc row 1)]> d.
Proof.
  intros [Hk1 Hk2] [Hv1 Hv2]. unfold add_channel.
  apply truthy_nonempty in Hk1, Hv1. apply String.eqb_neq in Hk2, Hv2.
  by rewrite Hk1, Hk2, Hv1, Hv2.
Qed.

Lemma add_channel_invalid d row :
  ¬ (valid_text (clean (iloc row 0)) ∧ valid_text (clean (iloc row 1))) →
  add_channel d row = d.
Proof.
  intros Hn. unfold add_channel.
  destruct (Str.truthy (clean (iloc row 0))) eqn:Hk1; [|done].
  destruct (String.eqb_spec (Str.lower (clean (iloc row 0))) "nan")
    as [|Hk2]; [done|].
  destruct (Str.truthy (clean (iloc row 1))) eqn:Hv1; [|done].
  destruct (String.eqb_spec (Str.lower (clean (iloc row 1))) "nan")
    as [|Hv2]; [done|].
  exfalso. apply Hn. unfold valid_text.
  apply truthy_nonempty in Hk1, Hv1. done.
Qed.

Lemma add_channel_cases d row :
  add_channel d row = d ∨
  (add_channel d row = <[clean (iloc row 0) := clean (iloc row 1)]> d ∧
   normalized (clean (iloc row 0)) ∧ normalized (clean (iloc row 1))).
Proof.
  unfold add_channel.
  destruct (Str.truthy (clean (iloc row 0))) eqn:Hk1; [|by left].
  destruct (String.eqb (Str.lower (clean (iloc row 0))) "nan") eqn:Hk2;
    [by left|].
  destruct (Str.truthy (clean (iloc row 1))) eqn:Hv1; [|by left].
  destruct (String.eqb (Str.lower (clean (iloc row 1))) "nan") eqn:Hv2;
    [by left|].
  right. simpl. auto using clean_normalized.
Qed.

Lemma foldl_add_channel_normalized rws d :
  map_Forall (λ k v, normalized k ∧ normalized v) d →
  map_Forall (λ k v, normalized k ∧ normalized v)
             (foldl add_channel d rws).
Proof.
  revert d. induction rws as [|row rws IH]; intros d Hd; simpl; [done|].
  apply IH.
  destruct (add_channel_cases d row) as [-> | (-> & Hk & Hv)]; [done|].
  by apply map_Forall_insert_2.
Qed.

Lemma foldl_add_channel_drop pre row post d :
  ¬ (valid_text (clean (iloc row 0)) ∧ valid_text (clean (iloc row 1))) →
  foldl add_channel d (pre ++ row :: post)
  = foldl add_channel d (pre ++ post).
Proof.
  intros Hn. rewrite !foldl_app. simpl. by rewrite add_channel_invalid.
Qed.

(** Rows after the last valid occurrence of [k] leave its entry alone. *)
Lemma foldl_add_channel_keep post d k v :
  d !! k = Some v →
  (∀ row, row ∈ post → clean (iloc row 0) = k →
          ¬ (valid_text k ∧ valid_text (clean (iloc row 1)))) →
  foldl add_channel d post !! k = Some v.
Proof.
  revert d. induction post as [|row post IH]; intros d Hd Hpost; simpl;
    [done|].
  apply IH; [|intros r Hr; apply Hpost; by right].
  destruct (add_channel_cases d row) as [-> | (-> & Hk & Hv)]; [done|].
  destruct (decide (clean (iloc row 0) = k)) as [Heq|Hne].
  - exfalso. apply (Hpost row); [by left|done|].
    subst k. split; [apply Hk|apply Hv].
  - by rewrite lookup_insert_ne.
Qed.

End loader.

(** C4.  Whatever workbook is uploaded, the loader returns a mapping (it does
    not raise or stop the script); every key and every value of that mapping
    is non-empty, differs from "nan" in any letter case, holds no
    non-breaking space and has no whitespace at either end; and a row whose
    identifier or label fails the validation is dropped without a
    diagnostic: loading the table gives the same page output and the same
    mapping as loading it without that row. *)
Theorem load_channel_data_normalized (f : excel_file) :
  ∃ events channel_dict,
    load_channel_data f = (events, Ret channel_dict) ∧
    (∀ k v, channel_dict !! k = Some v → normalized k ∧ normalized v) ∧
    (∀ n pre row post,
       f = inr (mkDataFrame n (pre ++ row :: post)) →
       (2 ≤ n)%nat →
       ¬ (valid_text (clean (iloc row 0)) ∧
          valid_text (clean (iloc row 1))) →
       events = [] ∧
       load_channel_data (inr (mkDataFrame n (pre ++ post)))
       = ([], Ret channel_dict)).
Proof.
  destruct f as [e | df].
  - eexists _, ∅. split; [reflexivity|]. split; [|discriminate].
    intros k v Hkv. by rewrite lookup_empty in Hkv.
  - unfold load_channel_data.
    destruct (shape1 df <? 2)%nat eqn:Hlt.
    + eexists _, ∅. split; [reflexivity|]. split.
      * intros k v Hkv. by rewrite lookup_empty in Hkv.
      * intros n pre row post [= ->] Hn _. simpl in Hlt.
        apply Nat.ltb_lt in Hlt. lia.
    + eexists [], _. split; [reflexivity|]. split.
      * intros k v Hkv.
        by apply (foldl_add_channel_normalized (rows df) ∅
                    (map_Forall_empty _) k v).
      * intros n pre row post [= ->] Hn Hbad. simpl in *.
        rewrite Hlt. split; [done|].
        by rewrite foldl_add_channel_drop.
Qed.

Lemma load_channel_data_normalized_witness :
  normalized "UC1" ∧ normalized "Renamed".
Proof.
  destruct (load_channel_data_normalized sample_workbook)
    as (events & d & Hload & Hall & _).
  apply Hall. injection Hload as _ <-. vm_compute. reflexivity.
Defined.

(** C6.  When the workbook cannot be read, or the frame read from it has
    fewer than two columns, the loader returns the empty mapping and writes
    exactly one error message; it does not raise and does not stop the
    script. *)
Theorem load_channel_data_invalid (f : excel_file) :
  (∃ e, f = inl e) ∨ (∃ df, f = inr df ∧ (shape1 df < 2)%nat) →
  ∃ msg, load_channel_data f = ([st_error msg], Ret ∅).
Proof.
  intros [[e ->] | (df & -> & Hlt)].
  - eexists. reflexivity.
  - apply Nat.ltb_lt in Hlt. unfold load_channel_data. rewrite Hlt.
    eexists. reflexivity.
Qed.

Lemma load_channel_data_invalid_witness :
  ∃ msg,
    load_channel_data (inr (mkDataFrame 1 [[Some "UC1"]; [Some "UC2"]]))
    = ([st_error msg], Ret ∅).
Proof.
  apply load_channel_data_invalid. right. eexists. split; [reflexivity|].
  simpl. lia.
Defined.

(** C9.  When an identifier occurs in several rows of the reference table,
    the mapping holds the label of its last row that passes the validation
    (a later valid row overwrites an earlier one, a later invalid row is
    skipped), and the collision writes no diagnostic. *)
Theorem load_channel_data_last_wins (n : nat) (pre post : list (list cell))
    (row : list cell) (k v : string) :
  (2 ≤ n)%nat →
  clean (iloc row 0) = k → clean (iloc row 1) = v →
  valid_text k → valid_text v →
  (∀ row', row' ∈ post → clean (iloc row' 0) = k →
           ¬ (valid_text k ∧ valid_text (clean (iloc row' 1)))) →
  ∃ channel_dict,
    load_channel_data (inr (mkDataFrame n (pre ++ row :: post)))
    = ([], Ret channel_dict) ∧
    channel_dict !! k = Some v.
Proof.
  intros Hn Hk Hv Hvk Hvv Hpost. unfold load_channel_data. simpl.
  destruct (n <? 2)%nat eqn:Hlt; [apply Nat.ltb_lt in Hlt; lia|].
  eexists. split; [reflexivity|].
  rewrite foldl_app. simpl. apply foldl_add_channel_keep; [|done].
  rewrite add_channel_valid by (by rewrite ?Hk, ?Hv).
  rewrite Hk, Hv. apply lookup_insert_eq.
Qed.

Lemma load_channel_data_last_wins_witness :
  ∃ channel_dict,
    load_channel_data sample_workbook = ([], Ret channel_dict) ∧
    channel_dict !! "UC1" = Some "Renamed".
Proof.
  apply (load_channel_data_last_wins 2
           [ [Some " UC1 "; Some "First"]; [None; Some "x"];
             [Some "UC2"; Some "Second"] ]
           [ [Some "UC1"; None] ]
           [Some "UC1"; Some "Renamed"] "UC1" "Renamed").
  - lia.
  - reflexivity.
  - reflexivity.
  - split; vm_compute; discriminate.
  - split; vm_compute; discriminate.
  - intros row' Hin _ [_ [_ Hnan]].
    apply list_elem_of_singleton in Hin. subst row'.
    apply Hnan. reflexivity.
Defined.

(** ** The chunk reader *)

Section chunk_reader.

(** A first attempt that reaches its end is the whole output. *)
Lemma first_attempt_complete r fallback :
  reader_error r = None → first_attempt r fallback = r.
Proof.
  induction r as [|chunk rest IH|e]; simpl; intros H;
    [done|by rewrite IH|discriminate].
Qed.

(** In general the output is every chunk of the first attempt, followed,
    when that attempt raised, by the whole second attempt. *)
Lemma first_attempt_chunks r fallback :
  chunks (first_attempt r fallback)
  = chunks r ++ match reader_error r with
                | Some _ => chunks fallback
                | None => []
                end.
Proof.
  induction r as [|chunk rest IH|e]; simpl; [done|by rewrite IH|].
  done.
Qed.

Lemma first_attempt_error r fallback :
  reader_error (first_attempt r fallback)
  = match reader_error r with
    | Some _ => reader_error fallback
    | None => None
    end.
Proof. induction r as [|chunk rest IH|e]; simpl; done. Qed.

Lemma for_chunks_error channel_dict g results e :
  reader_error g = Some e → for_chunks channel_dict g results = inl e.
Proof.
  revert results. induction g as [|chunk rest IH|e']; simpl;
    intros results H; [discriminate|by apply IH|congruence].
Qed.

End chunk_reader.

(** C1.  The chunk reader does not cover every row of every input.  The
    reader of the fallback attempt is asked for with [low_memory=False],
    which pandas refuses for the Python engine, so the fallback never reads
    a row: the generator delivers what the strict attempt yielded, once,
    and whenever the strict attempt raises it raises in turn, leaving the
    rest of the file undelivered; the per-file function then discards what
    was delivered and reports the file as failed. *)
Theorem iter_chunks_fallback_never_reads (f : file_like) :
  read_csv f engine_python None = Raise low_memory_error →
  chunks (iter_chunks_with_fallback f)
  = chunks (read_csv f engine_c (Some ",")) ∧
  ∀ e,
    reader_error (read_csv f engine_c (Some ",")) = Some e →
    reader_error (iter_chunks_with_fallback f) = Some low_memory_error ∧
    ∀ display_name channel_dict,
      process_csv_for_channel_assets f display_name channel_dict
      = ([st_warning ("Error reading " +:+ display_name +:+ ": "
                      +:+ low_memory_error)],
         Ret None).
Proof.
  intros Hpy.
  assert (∀ e, reader_error (read_csv f engine_c (Some ",")) = Some e →
               reader_error (iter_chunks_with_fallback f)
               = Some low_memory_error) as Herr.
  { intros e He. unfold iter_chunks_with_fallback, make_reader.
    by rewrite first_attempt_error, He, Hpy. }
  split.
  - unfold iter_chunks_with_fallback, make_reader.
    rewrite first_attempt_chunks, Hpy. simpl.
    destruct (reader_error _); by rewrite app_nil_r.
  - intros e He. split; [by apply (Herr e)|].
    intros display_name channel_dict.
    unfold process_csv_for_channel_assets.
    by rewrite (for_chunks_error _ _ _ low_memory_error) by by apply (Herr e).
Qed.

Lemma iter_chunks_fallback_never_reads_witness :
  iter_chunks_with_fallback open_quote_csv
  = Yield chunk_1 (Raise low_memory_error) ∧
  delivered_rows (iter_chunks_with_fallback open_quote_csv)
  = [data_row (Some "A1") (Some "UC1")] ∧
  process_csv_for_channel_assets open_quote_csv "report.csv" sample_dict
  = ([st_warning ("Error reading report.csv: " +:+ low_memory_error)],
     Ret None).
Proof.
  destruct (iter_chunks_fallback_never_reads open_quote_csv eq_refl)
    as [Hchunks Hraise].
  destruct (Hraise
    "Error tokenizing data. C error: EOF inside string starting at row 1"
    eq_refl) as [_ Hfile].
  split; [reflexivity|]. split; [reflexivity|].
  apply (Hfile "report.csv" sample_dict).
Defined.

(** ** The row matcher *)

Section matcher.

Variable channel_dict : gmap string string.
Hypothesis keys_valid : set_Forall valid_text (dom channel_dict).

(** The text of an absent cell is no key of a validated mapping. *)
Lemma nan_not_key : "nan" ∉ dom channel_dict.
Proof. intros H. apply keys_valid in H as [_ H]. by apply H. Qed.

Lemma empty_not_key : "" ∉ dom channel_dict.
Proof. intros H. apply keys_valid in H as [H _]. by apply H. Qed.

Lemma clean_in_keys_iff row :
  clean (iloc row CHANNEL_COL_IDX) ∈ dom channel_dict
  ↔ identifier_matches channel_dict row.
Proof.
  unfold identifier_matches.
  destruct (iloc row CHANNEL_COL_IDX) as [s|]; [done|].
  split; [|done]. apply nan_not_key.
Qed.

Lemma filtered_rows_matches chunk :
  filtered_rows (dom channel_dict) chunk
  = map (fun row => (clean (iloc row ASSET_COL_IDX),
                     clean (iloc row CHANNEL_COL_IDX)))
        (filter (identifier_matches channel_dict) (rows chunk)).
Proof.
  unfold filtered_rows, cleaned_columns.
  induction (rows chunk) as [|row rws IH]; [done|].
  rewrite map_cons, !filter_cons. simpl.
  destruct (decide (identifier_matches channel_dict row)) as [Hm|Hm].
  - rewrite decide_True by (by apply clean_in_keys_iff).
    by rewrite map_cons, IH.
  - rewrite decide_False by (by rewrite clean_in_keys_iff). done.
Qed.

Lemma subset_of_filtered_rows chunk :
  subset_of channel_dict (filtered_rows (dom channel_dict) chunk)
  = map (match_record channel_dict)
        (filter (identifier_matches channel_dict) (rows chunk)).
Proof.
  rewrite filtered_rows_matches. unfold subset_of.
  rewrite map_map. done.
Qed.

Lemma blank_rows_match_nothing rws :
  (∀ row, row ∈ rws → identifier_blank row) →
  filter (identifier_matches channel_dict) rws = [].
Proof.
  intros Hblank. induction rws as [|row rws IH]; [done|].
  rewrite filter_cons_False.
  - apply IH. intros r Hr. apply Hblank. by right.
  - specialize (Hblank row (list_elem_of_here _ _)).
    unfold identifier_matches, identifier_blank in *.
    destruct (iloc row CHANNEL_COL_IDX) as [s|]; [|tauto].
    rewrite Hblank. apply empty_not_key.
Qed.

(** What one pass of the loop body adds to [results]. *)
Lemma loop_body_concat results chunk :
  (Nat.max ASSET_COL_IDX CHANNEL_COL_IDX < shape1 chunk)%nat →
  concat (loop_body channel_dict results chunk)
  = concat results
    ++ map (match_record channel_dict)
           (filter (identifier_matches channel_dict) (rows chunk)).
Proof.
  intros Hcols. unfold loop_body.
  destruct (Nat.leb_spec (shape1 chunk)
              (Nat.max ASSET_COL_IDX CHANNEL_COL_IDX)) as [Hle|_]; [lia|].
  rewrite <- subset_of_filtered_rows.
  destruct (filtered_rows (dom channel_dict) chunk) as [|p ps].
  - simpl. by rewrite app_nil_r.
  - rewrite concat_app. simpl. by rewrite app_nil_r.
Qed.

Lemma loop_body_blank results chunk :
  (∀ row, row ∈ rows chunk → identifier_blank row) →
  loop_body channel_dict results chunk = results.
Proof.
  intros Hblank. unfold loop_body.
  destruct (shape1 chunk <=? _)%nat; [done|].
  rewrite filtered_rows_matches, blank_rows_match_nothing by done. done.
Qed.

End matcher.

(** C2.  For a mapping whose keys pass the validation and a batch whose
    column count covers positions 3 and 6, the loop body adds to the file's
    results exactly one record per row whose identifier cell, once
    normalized, is a key of the mapping, in row order and with the label the
    mapping holds for it.  Consequently a batch whose identifier cells are
    all absent or blank adds nothing, and a file made of such a batch gives
    no matches and no diagnostic. *)
Theorem matcher_one_record_per_matching_row
    (channel_dict : gmap string string) (results : list (list mapping))
    (chunk : DataFrame) :
  set_Forall valid_text (dom channel_dict) →
  (ASSET_COL_IDX < shape1 chunk)%nat →
  (CHANNEL_COL_IDX < shape1 chunk)%nat →
  let matching := filter (identifier_matches channel_dict) (rows chunk) in
  let emitted := map (match_record channel_dict) matching in
  concat (loop_body channel_dict results chunk) = concat results ++ emitted ∧
  length emitted = length matching ∧
  Forall (λ r, ∃ label, channel_dict !! Channel_ID r = Some label ∧
                        Channel_Name r = Some label) emitted ∧
  ((∀ row, row ∈ rows chunk → identifier_blank row) →
   emitted = [] ∧
   loop_body channel_dict results chunk = results ∧
   ∀ f display_name,
     iter_chunks_with_fallback f = Yield chunk StopIteration →
     process_csv_for_channel_assets f display_name channel_dict
     = ([], Ret None)).
Proof.
  intros Hkeys Hasset Hchannel matching emitted.
  split; [|split; [|split]].
  - apply loop_body_concat; [done|].
    unfold ASSET_COL_IDX, CHANNEL_COL_IDX in *. lia.
  - subst emitted. by rewrite length_map.
  - subst emitted matching. apply Forall_forall. intros r Hr.
    apply list_elem_of_fmap in Hr as (row & -> & Hrow).
    apply list_elem_of_filter in Hrow as [Hm _].
    apply (clean_in_keys_iff channel_dict Hkeys) in Hm.
    apply elem_of_dom in Hm as [label Hlabel].
    exists label. simpl. done.
  - intros Hblank.
    assert (loop_body channel_dict [] chunk = []) as Hnil
      by (by apply loop_body_blank).
    split; [|split].
    + subst emitted matching.
      by rewrite blank_rows_match_nothing.
    + by apply loop_body_blank.
    + intros f display_name Hiter. unfold process_csv_for_channel_assets.
      rewrite Hiter. simpl. by rewrite Hnil.
Qed.

Lemma matcher_one_record_per_matching_row_witness :
  concat (loop_body sample_dict [] chunk_2)
  = [mkMapping "A2" "UC2" (Some "Second")] ∧
  loop_body sample_dict [] blank_chunk = [].
Proof.
  assert (set_Forall valid_text (dom sample_dict)) as Hkeys.
  { apply (bool_decide_unpack _). vm_compute. exact I. }
  split.
  - destruct (matcher_one_record_per_matching_row sample_dict [] chunk_2)
      as (Hall & _); [exact Hkeys | vm_compute; lia | vm_compute; lia |].
    rewrite Hall. vm_compute. reflexivity.
  - destruct (matcher_one_record_per_matching_row sample_dict [] blank_chunk)
      as (_ & _ & _ & Hblank); [exact Hkeys | vm_compute; lia | vm_compute; lia |].
    apply Hblank. intros row Hrow.
    repeat (apply elem_of_cons in Hrow as [-> | Hrow]; [by vm_compute|]).
    by apply elem_of_nil in Hrow.
Defined.

(** ** The aggregator *)

Section order.

Lemma string_compare_refl s : (s ?= s)%string = Eq.
Proof.
  induction s as [|a s IH]; simpl; [done|].
  unfold Ascii.compare. by rewrite N.compare_refl.
Qed.

Lemma string_compare_lt_trans s1 s2 s3 :
  (s1 ?= s2)%string = Lt → (s2 ?= s3)%string = Lt → (s1 ?= s3)%string = Lt.
Proof.
  intros H12 H23.
  assert (String.le s1 s3) as H13.
  { transitivity s2; apply Is_true_true; unfold String.leb;
      by rewrite ?H12, ?H23. }
  unfold String.le, String.leb in H13.
  destruct (s1 ?= s3)%string eqn:Hc; [|done|done].
  apply String.compare_eq_iff in Hc as ->.
  rewrite String.compare_antisym, H23 in H12. discriminate.
Qed.

Lemma cell_compare_refl a : cell_compare a a = Eq.
Proof. destruct a; simpl; [apply string_compare_refl|done]. Qed.

Lemma cell_compare_eq a b : cell_compare a b = Eq → a = b.
Proof.
  destruct a, b; simpl; try done.
  by intros ->%String.compare_eq_iff.
Qed.

Lemma cell_compare_antisym a b :
  cell_compare a b = CompOpp (cell_compare b a).
Proof. destruct a, b; simpl; try done. apply String.compare_antisym. Qed.

Lemma cell_compare_lt_trans a b c :
  cell_compare a b = Lt → cell_compare b c = Lt → cell_compare a c = Lt.
Proof.
  destruct a, b, c; simpl; try done. apply string_compare_lt_trans.
Qed.

Lemma key_le_trans : Transitive key_le.
Proof.
  intros r1 r2 r3. unfold key_le, key_leb.
  destruct (cell_compare (Channel_Name r1) (Channel_Name r2)) eqn:H12;
    [|  |done].
  - apply cell_compare_eq in H12 as ->.
    destruct (cell_compare (Channel_Name r2) (Channel_Name r3)); try done.
    intros Ha Hb.
    assert (String.le (Asset_ID r1) (Asset_ID r3)) as H.
    { transitivity (Asset_ID r2); by apply Is_true_true. }
    by apply Is_true_true in H.
  - intros _.
    destruct (cell_compare (Channel_Name r2) (Channel_Name r3)) eqn:H23;
      [| |done].
    + apply cell_compare_eq in H23 as <-. by rewrite H12.
    + by rewrite (cell_compare_lt_trans _ _ _ H12 H23).
Qed.

Lemma key_le_total r1 r2 : key_leb r1 r2 = false → key_le r2 r1.
Proof.
  unfold key_le, key_leb.
  rewrite (cell_compare_antisym (Channel_Name r2)).
  destruct (cell_compare (Channel_Name r1) (Channel_Name r2)); simpl;
    [|done|done].
  intros H. destruct (String.leb_total (Asset_ID r1) (Asset_ID r2)); [|done].
  congruence.
Qed.

End order.

Section sorting.

Lemma insert_row_perm r df : insert_row r df ≡ₚ r :: df.
Proof.
  induction df as [|x df IH]; simpl; [done|].
  destruct (key_leb r x); [done|].
  rewrite IH. apply Permutation_swap.
Qed.

Lemma sort_values_perm df : sort_values df ≡ₚ df.
Proof.
  induction df as [|r df IH]; simpl; [done|].
  by rewrite insert_row_perm, IH.
Qed.

Lemma insert_row_sorted r df :
  Sorted key_le df → Sorted key_le (insert_row r df).
Proof.
  induction df as [|x df IH]; simpl; intros Hs.
  - by repeat constructor.
  - destruct (key_leb r x) eqn:Hrx.
    + constructor; [done|]. by constructor.
    + apply Sorted_inv in Hs as [Hs Hhd].
      constructor; [by apply IH|].
      destruct df as [|y df]; simpl.
      * constructor. by apply key_le_total.
      * destruct (key_leb r y); constructor.
        -- by apply key_le_total.
        -- by apply HdRel_inv in Hhd.
Qed.

Lemma sort_values_sorted df : StronglySorted key_le (sort_values df).
Proof.
  apply Sorted_StronglySorted; [apply key_le_trans|].
  induction df as [|r df IH]; simpl; [constructor|].
  by apply insert_row_sorted.
Qed.

End sorting.

Section dedup.

Implicit Types (seen : gset (string * string)) (df : list mapping).

Lemma drop_duplicates_from_elem seen df r :
  r ∈ drop_duplicates_from seen df → r ∈ df ∧ pair_of r ∉ seen.
Proof.
  revert seen. induction df as [|x df IH]; intros seen; simpl.
  - by intros ?%elem_of_nil.
  - destruct (decide (pair_of x ∈ seen)) as [Hin|Hout].
    + intros [? ?]%IH. split; [by right|done].
    + intros [-> | [? Hr]%IH]%elem_of_cons; [split; [left|done]|].
      split; [by right|]. intros Hs. apply Hr, elem_of_union_r, Hs.
Qed.

Lemma drop_duplicates_from_pairs seen df p :
  p ∈ map pair_of (drop_duplicates_from seen df)
  ↔ p ∈ map pair_of df ∧ p ∉ seen.
Proof.
  revert seen. induction df as [|x df IH]; intros seen; simpl.
  - split; [by intros ?%elem_of_nil|by intros [?%elem_of_nil _]].
  - destruct (decide (pair_of x ∈ seen)) as [Hin|Hout]; simpl.
    + rewrite IH, elem_of_cons. split; [tauto|].
      intros [[-> | ?] ?]; [contradiction|tauto].
    + rewrite !elem_of_cons, IH, not_elem_of_union, not_elem_of_singleton.
      split.
      * intros [-> | (? & ? & ?)]; [split; [by left|done]|tauto].
      * intros [[-> | ?] ?]; [by left|].
        destruct (decide (p = pair_of x)) as [->|]; [by left|tauto].
Qed.

Lemma drop_duplicates_from_NoDup seen df :
  NoDup (map pair_of (drop_duplicates_from seen df)).
Proof.
  revert seen. induction df as [|x df IH]; intros seen; simpl.
  - constructor.
  - destruct (decide (pair_of x ∈ seen)); simpl; [apply IH|].
    constructor; [|apply IH].
    rewrite drop_duplicates_from_pairs. intros [_ Hx].
    apply Hx, elem_of_union_l, elem_of_singleton. done.
Qed.

(** A row that is kept is the first of its pair in the input. *)
Lemma drop_duplicates_from_first seen df r :
  r ∈ drop_duplicates_from seen df →
  ∃ before after,
    df = before ++ r :: after ∧ pair_of r ∉ map pair_of before.
Proof.
  revert seen. induction df as [|x df IH]; intros seen; simpl.
  - by intros ?%elem_of_nil.
  - destruct (decide (pair_of x ∈ seen)) as [Hin|Hout].
    + intros Hr.
      destruct (drop_duplicates_from_elem _ _ _ Hr) as [_ Hseen].
      destruct (IH _ Hr) as (before & after & -> & Hb).
      exists (x :: before), after. split; [done|].
      simpl. apply not_elem_of_cons. split; [congruence|done].
    + intros [-> | Hr]%elem_of_cons.
      * exists [], df. split; [done|]. apply not_elem_of_nil.
      * destruct (drop_duplicates_from_elem _ _ _ Hr) as [_ Hseen].
        destruct (IH _ Hr) as (before & after & -> & Hb).
        exists (x :: before), after. split; [done|].
        simpl. apply not_elem_of_cons. split; [|done].
        intros Heq. apply Hseen, elem_of_union_l, elem_of_singleton, Heq.
Qed.

(** In a frame without repeated pairs, a pair is held by one row or by
    none. *)
Lemma NoDup_pairs_count df p :
  NoDup (map pair_of df) →
  length (filter (λ r, pair_of r = p) df)
  = if decide (p ∈ map pair_of df) then 1 else 0.
Proof.
  induction df as [|x df IH]; intros Hnd.
  - destruct (decide (p ∈ map pair_of [])) as [Hin|_]; [|done].
    by apply elem_of_nil in Hin.
  - rewrite map_cons in *. apply NoDup_cons in Hnd as [Hx Hnd].
    rewrite filter_cons, (decide_ext _ _ _ _ (elem_of_cons _ p (pair_of x))).
    specialize (IH Hnd).
    destruct (decide (pair_of x = p)) as [<-|Hne].
    + rewrite decide_True by (by left). simpl. rewrite IH.
      by rewrite decide_False.
    + rewrite IH.
      destruct (decide (p ∈ map pair_of df)) as [Hin|Hout].
      * rewrite decide_True; [done|by right].
      * rewrite decide_False; [done|]. intros [?|?]; congruence.
Qed.

End dedup.

(** C3.  The final frame is the concatenation of the per-file frames, in
    file order, without repeated (Asset ID, Channel ID) pairs and sorted by
    (Channel Name, Asset ID): it is ascending for that order; a pair is held
    by exactly one of its rows when some file has it and by none otherwise;
    the row kept for a pair is the first one of the concatenation with that
    pair; in particular a pair found in two files is held by exactly one
    row; and labels "B", "A", "A" with values "2", "1", "3" come out as
    ("1","A"), ("3","A"), ("2","B"). *)
Theorem final_df_dedup_sorted (all_results : list (list mapping)) :
  StronglySorted key_le (final_df all_results) ∧
  (∀ p, length (filter (λ r, pair_of r = p) (final_df all_results))
        = if decide (p ∈ map pair_of (concat all_results)) then 1 else 0) ∧
  (∀ r, r ∈ final_df all_results →
        ∃ before after,
          concat all_results = before ++ r :: after ∧
          pair_of r ∉ map pair_of before) ∧
  (∀ file1 file2 r1 r2,
     all_results = [file1; file2] →
     r1 ∈ file1 → r2 ∈ file2 → pair_of r1 = pair_of r2 →
     length (filter (λ r, pair_of r = pair_of r1) (final_df all_results))
     = 1) ∧
  (∀ c1 c2 c3,
     final_df [[mkMapping "2" c1 (Some "B"); mkMapping "1" c2 (Some "A");
                mkMapping "3" c3 (Some "A")]]
     = [mkMapping "1" c2 (Some "A"); mkMapping "3" c3 (Some "A");
        mkMapping "2" c1 (Some "B")]).
Proof.
  assert (∀ p, length (filter (λ r, pair_of r = p) (final_df all_results))
               = if decide (p ∈ map pair_of (concat all_results))
                 then 1 else 0) as Hcount.
  { intros p. unfold final_df. rewrite sort_values_perm.
    rewrite NoDup_pairs_count by apply drop_duplicates_from_NoDup.
    apply decide_ext. unfold drop_duplicates.
    rewrite drop_duplicates_from_pairs. split; [tauto|].
    intros Hp. split; [exact Hp|apply not_elem_of_empty]. }
  split; [apply sort_values_sorted|].
  split; [exact Hcount|].
  split; [|split].
  - intros r Hr. unfold final_df in Hr. rewrite sort_values_perm in Hr.
    by apply drop_duplicates_from_first in Hr.
  - intros file1 file2 r1 r2 -> Hr1 _ _. rewrite Hcount.
    rewrite decide_True; [done|].
    apply list_elem_of_fmap. exists r1. split; [done|].
    simpl. apply elem_of_app. by left.
  - intros c1 c2 c3. unfold final_df, drop_duplicates. simpl.
    rewrite decide_False by apply not_elem_of_empty.
    rewrite decide_False
      by (intros [H|H]%elem_of_union;
            [apply elem_of_singleton in H; discriminate H
            |by apply not_elem_of_empty in H]).
    rewrite decide_False
      by (intros [H|[H|H]%elem_of_union]%elem_of_union;
            [apply elem_of_singleton in H; discriminate H
            |apply elem_of_singleton in H; discriminate H
            |by apply not_elem_of_empty in H]).
    reflexivity.
Qed.

Lemma final_df_dedup_sorted_witness :
  length (filter (λ r, pair_of r = ("A1", "UC1"))
            (final_df [ [mkMapping "A1" "UC1" (Some "Renamed")];
                        [mkMapping "A7" "UC2" (Some "Second");
                         mkMapping "A1" "UC1" (Some "Renamed")] ]))
  = 1.
Proof.
  destruct (final_df_dedup_sorted
              [ [mkMapping "A1" "UC1" (Some "Renamed")];
                [mkMapping "A7" "UC2" (Some "Second");
                 mkMapping "A1" "UC1" (Some "Renamed")] ])
    as (_ & _ & _ & Htwo & _).
  apply (Htwo _ _ (mkMapping "A1" "UC1" (Some "Renamed"))
              (mkMapping "A1" "UC1" (Some "Renamed")) eq_refl).
  - left.
  - right. left.
  - reflexivity.
Defined.

(** ** Archive extraction *)

(** C10.  Extraction does not leave out every macOS metadata member: a
    member of a "__MACOSX" folder at the top of the archive whose base name
    ends in ".csv" and does not start with a dot is returned as an input
    file, whereas the same member below another folder is left out. *)
Theorem extract_keeps_top_level_macosx_member :
  extract_csv_filelikes_from_zip macosx_archive
  = inr [("report.csv", plain_csv)] ∧
  extract_csv_filelikes_from_zip nested_macosx_archive = inr [].
Proof. split; vm_compute; reflexivity. Qed.

(** What extraction does keep, in archive order. *)
Example extract_sample_archive :
  extract_csv_filelikes_from_zip sample_archive
  = inr [("January.CSV", plain_csv)].
Proof. vm_compute. reflexivity. Qed.

(** ** The script *)

Section script.

Lemma enforce_max_ok csvs :
  (length csvs ≤ MAX_CSV_FILES)%nat → enforce_max csvs = ([], Ret tt).
Proof.
  intros Hle. unfold enforce_max. destruct csvs as [|f csvs]; [done|].
  destruct (Nat.ltb_spec MAX_CSV_FILES (length (f :: csvs))); [lia|done].
Qed.

Lemma enforce_max_over csvs :
  (MAX_CSV_FILES < length csvs)%nat →
  ∃ msg, enforce_max csvs = ([st_error msg], Stopped).
Proof.
  intros Hlt. unfold enforce_max.
  destruct csvs as [|f csvs]; [simpl in Hlt; lia|].
  destruct (Nat.ltb_spec MAX_CSV_FILES (length (f :: csvs))); [|lia].
  eexists. reflexivity.
Qed.

Lemma load_channel_data_returns f :
  ∃ events channel_dict, load_channel_data f = (events, Ret channel_dict).
Proof.
  destruct f as [e|df]; simpl; [by eexists _, _|].
  destruct (shape1 df <? 2)%nat; by eexists _, _.
Qed.

Lemma process_csv_returns f display_name channel_dict :
  ∃ events res,
    process_csv_for_channel_assets f display_name channel_dict
    = (events, Ret res).
Proof.
  unfold process_csv_for_channel_assets.
  destruct (for_chunks _ _ _) as [e|[|r results]]; by eexists _, _.
Qed.

Lemma process_files_returns channel_dict items all_results :
  ∃ events final,
    process_files channel_dict items all_results = (events, Ret final).
Proof.
  revert all_results.
  induction items as [|[display_name f] items IH]; intros all_results;
    simpl; [by eexists _, _|].
  destruct (process_csv_returns f display_name channel_dict)
    as (ev & res & ->). simpl.
  destruct res as [[|r df]|]; simpl;
    match goal with
    | |- context [process_files _ _ ?acc] =>
        destruct (IH acc) as (ev' & final & ->)
    end; by eexists _, _.
Qed.

Lemma process_files_app channel_dict items1 items2 all_results :
  process_files channel_dict (items1 ++ items2) all_results
  = (acc <- process_files channel_dict items1 all_results ;;
     process_files channel_dict items2 acc).
Proof.
  revert all_results.
  induction items1 as [|[display_name f] items1 IH]; intros all_results;
    simpl.
  - by destruct (process_files _ _ _).
  - destruct (process_csv_returns f display_name channel_dict)
      as (ev & res & ->). simpl.
    destruct res as [[|r df]|]; simpl; rewrite IH;
      match goal with
      | |- context [process_files _ items1 ?acc] =>
          destruct (process_files_returns channel_dict items1 acc)
            as (ev1 & acc1 & ->)
      end; simpl; destruct (process_files _ _ _); simpl;
      by rewrite <- app_assoc.
Qed.

End script.

(** C5.  A file on which the strict attempt and the fallback attempt both
    raise gives no frame and one warning that names it by its display name;
    in the loop over the input files it adds that warning and its "no
    matches" line to the page and nothing else: the files before and after
    it write what they write without it, and the collected results are the
    same, so the run goes on to the same final frame. *)
Theorem failed_file_is_isolated (channel_dict : gmap string string)
    (before after : list (string * file_like)) (display_name : string)
    (f : file_like) (e1 e2 : string) (all_results : list (list mapping)) :
  reader_error (read_csv f engine_c (Some ",")) = Some e1 →
  reader_error (read_csv f engine_python None) = Some e2 →
  process_csv_for_channel_assets f display_name channel_dict
  = ([st_warning ("Error reading " +:+ display_name +:+ ": " +:+ e2)],
     Ret None) ∧
  (∃ ev1 acc ev2 final,
     process_files channel_dict before all_results = (ev1, Ret acc) ∧
     process_files channel_dict after acc = (ev2, Ret final) ∧
     process_files channel_dict (before ++ after) all_results
     = (ev1 ++ ev2, Ret final) ∧
     process_files channel_dict (before ++ (display_name, f) :: after)
                   all_results
     = (ev1
        ++ [st_warning ("Error reading " +:+ display_name +:+ ": " +:+ e2);
            st_write ("⚪ No matches in " +:+ display_name)]
        ++ ev2,
        Ret final)) ∧
  (∀ w, before ++ after ≠ [] →
        (generate w (before ++ (display_name, f) :: after)).2
        = (generate w (before ++ after)).2).
Proof.
  intros Hstrict Hfallback.
  assert (∀ d, process_csv_for_channel_assets f display_name d
    = ([st_warning ("Error reading " +:+ display_name +:+ ": " +:+ e2)],
       Ret None)) as Hfile.
  { intros d. unfold process_csv_for_channel_assets.
    rewrite (for_chunks_error _ _ _ e2); [done|].
    unfold iter_chunks_with_fallback, make_reader.
    by rewrite first_attempt_error, Hstrict. }
  assert (∀ d acc0,
    ∃ ev1 acc ev2 final,
     process_files d before acc0 = (ev1, Ret acc) ∧
     process_files d after acc = (ev2, Ret final) ∧
     process_files d (before ++ after) acc0 = (ev1 ++ ev2, Ret final) ∧
     process_files d (before ++ (display_name, f) :: after) acc0
     = (ev1
        ++ [st_warning ("Error reading " +:+ display_name +:+ ": " +:+ e2);
            st_write ("⚪ No matches in " +:+ display_name)]
        ++ ev2,
        Ret final)) as Hloop.
  { intros d acc0.
    destruct (process_files_returns d before acc0) as (ev1 & acc & H1).
    destruct (process_files_returns d after acc) as (ev2 & final & H2).
    exists ev1, acc, ev2, final. split; [done|]. split; [done|].
    rewrite !process_files_app, H1. simpl. rewrite Hfile. simpl.
    by rewrite H2. }
  split; [apply Hfile|]. split; [apply Hloop|].
  intros w Hne. unfold generate.
  destruct (uploaded_excel w) as [excel|]; [|done].
  remember (before ++ after) as items eqn:Hitems.
  remember (before ++ (display_name, f) :: after) as items' eqn:Hitems'.
  destruct items as [|i items]; [done|].
  destruct items' as [|i' items']; [by destruct before|].
  destruct (load_channel_data_returns excel) as (evl & d & ->).
  cbn -[process_files].
  destruct (decide (d = ∅)); [done|].
  destruct (Hloop d []) as (ev1 & acc & ev2 & final & _ & _ & -> & ->).
  simpl. by destruct final.
Qed.

Lemma failed_file_is_isolated_witness :
  process_csv_for_channel_assets unreadable_csv "broken.csv" sample_dict
  = ([st_warning ("Error reading broken.csv: " +:+ low_memory_error)],
     Ret None).
Proof.
  apply (failed_file_is_isolated sample_dict [("a.csv", plain_csv)]
           [("b.csv", plain_csv)] "broken.csv" unreadable_csv
           "No columns to parse from file" low_memory_error []).
  - reflexivity.
  - reflexivity.
Defined.



(** C8 as stated fails: beside the same archive, thirteen direct uploads
    stop the run at the cap on the direct selection, whereas no direct
    upload lets the archive through to a final frame. *)
Lemma archive_precedence_fails_over_cap :
  main (run_with_archive thirteen_uploads)
  = ([st_error "Maximum 12 CSV files allowed. You selected 13."], Stopped) ∧
  main (run_with_archive [])
  = ([st_info "Found 1 CSV files in ZIP.";
      st_success "Loaded 2 channel IDs with names.";
      st_write "✅ Found 1 matches in January.CSV";
      st_success "### Found 1 unique Asset-Channel mappings";
      st_metric "Total Mappings" 1;
      st_metric "Unique Assets" 1;
      st_metric "Unique Channels" 1],
     Ret (Some [mkMapping "A1" "UC1" (Some "Renamed")])).
Proof. split; vm_compute; reflexivity. Qed.

(** C8, amended.  When an archive is supplied and the direct selection holds
    at most 12 files, the run is the run of the archive alone: the page
    output and the final frame do not depend on the direct uploads. *)
Theorem archive_takes_precedence (w : widgets) (zb : zip_bytes) :
  uploaded_zip w = Some zb →
  (length (uploaded_csvs w) ≤ MAX_CSV_FILES)%nat →
  main w
  = main (mkWidgets (uploaded_excel w) [] (Some zb) (generate_clicked w)).
Proof.
  intros Hzip Hle. unfold main.
  rewrite (enforce_max_ok _ Hle). simpl.
  unfold prepare_inputs. simpl. rewrite Hzip.
  destruct (extract_csv_filelikes_from_zip zb) as [e|[|x extracted]];
    [done|done|].
  destruct (MAX_CSV_FILES <? length (x :: extracted))%nat; [done|].
  reflexivity.
Qed.

Lemma archive_takes_precedence_witness :
  main (run_with_archive [mkUpload "extra.csv" open_quote_csv])
  = main (run_with_archive []).
Proof.
  apply (archive_takes_precedence
           (run_with_archive [mkUpload "extra.csv" open_quote_csv])
           sample_archive).
  - reflexivity.
  - vm_compute. lia.
Defined.

(** * Further properties *)

(** ** Chunk reader and per-file processing *)

Section per_file.

Implicit Types (d : gmap string string) (results : list (list mapping)).

Lemma loop_body_app d results chunk :
  loop_body d results chunk = results ++ loop_body d [] chunk.
Proof.
  unfold loop_body.
  destruct (shape1 chunk <=? _)%nat; [by rewrite app_nil_r|].
  destruct (filtered_rows (dom d) chunk); [by rewrite app_nil_r|done].
Qed.

Lemma loop_body_nonempty d results chunk :
  Forall (λ df, df ≠ []) results →
  Forall (λ df, df ≠ []) (loop_body d results chunk).
Proof.
  intros Hres. unfold loop_body.
  destruct (shape1 chunk <=? _)%nat; [done|].
  destruct (filtered_rows (dom d) chunk) as [|p ps] eqn:Hf; [done|].
  apply Forall_app. split; [done|]. by repeat constructor.
Qed.

Lemma for_chunks_complete d g results :
  reader_error g = None →
  for_chunks d g results = inr (foldl (loop_body d) results (chunks g)).
Proof.
  revert results. induction g as [|chunk rest IH|e]; simpl;
    intros results H; [done|by apply IH|discriminate].
Qed.

Lemma for_chunks_cases d g results :
  match reader_error g with
  | Some e => for_chunks d g results = inl e
  | None =>
      for_chunks d g results = inr (foldl (loop_body d) results (chunks g))
  end.
Proof.
  destruct (reader_error g) as [e|] eqn:H.
  - by apply for_chunks_error.
  - by apply for_chunks_complete.
Qed.

Lemma foldl_loop_body_concat d cs results :
  concat (foldl (loop_body d) results cs)
  = concat results ++ concat (map (chunk_records d) cs).
Proof.
  revert results. induction cs as [|c cs IH]; intros results; simpl.
  - by rewrite app_nil_r.
  - rewrite IH, loop_body_app, concat_app. unfold chunk_records.
    by rewrite <- app_assoc.
Qed.

Lemma foldl_loop_body_nonempty d cs results :
  Forall (λ df, df ≠ []) results →
  Forall (λ df, df ≠ []) (foldl (loop_body d) results cs).
Proof.
  revert results. induction cs as [|c cs IH]; intros results H; simpl;
    [done|]. by apply IH, loop_body_nonempty.
Qed.

Lemma concat_nonempty (frames : list (list mapping)) :
  Forall (λ df, df ≠ []) frames → frames ≠ [] → concat frames ≠ [].
Proof.
  intros Hall Hne. destruct frames as [|df frames]; [done|].
  apply Forall_cons in Hall as [Hdf _]. simpl.
  destruct df; [done|discriminate].
Qed.

(** What a record of a chunk always satisfies, whatever the mapping. *)
Lemma chunk_records_sound d chunk r :
  r ∈ chunk_records d chunk →
  Channel_Name r = d !! Channel_ID r ∧ is_Some (d !! Channel_ID r) ∧
  (∃ row, row ∈ rows chunk ∧
          Asset_ID r = clean (iloc row ASSET_COL_IDX) ∧
          Channel_ID r = clean (iloc row CHANNEL_COL_IDX)).
Proof.
  unfold chunk_records, loop_body.
  destruct (shape1 chunk <=? _)%nat; [by intros ?%elem_of_nil|].
  destruct (filtered_rows (dom d) chunk) as [|p ps] eqn:Hf;
    [by intros ?%elem_of_nil|].
  intros Hr0.
  assert (r ∈ subset_of d (filtered_rows (dom d) chunk)) as Hr.
  { rewrite Hf. simpl in Hr0. rewrite app_nil_r in Hr0. exact Hr0. }
  clear Hr0 Hf. unfold subset_of in Hr.
  apply list_elem_of_fmap in Hr as (q & -> & Hq).
  unfold filtered_rows in Hq. apply list_elem_of_filter in Hq as [Hkey Hq].
  unfold cleaned_columns in Hq.
  apply list_elem_of_fmap in Hq as (row & -> & Hrow). simpl in *.
  split; [done|]. split; [by apply elem_of_dom|]. by exists row.
Qed.

End per_file.

(** X1.  When the comma/C-engine reader reaches the end of the file, the
    generator hands out exactly that reader's chunks and ends: the fallback
    reader has no part in the output. *)
Theorem iter_chunks_strict_wins (f : file_like) :
  reader_error (read_csv f engine_c (Some ",")) = None →
  iter_chunks_with_fallback f = read_csv f engine_c (Some ",").
Proof.
  intros H. unfold iter_chunks_with_fallback, make_reader.
  by apply first_attempt_complete.
Qed.

Lemma iter_chunks_strict_wins_witness :
  iter_chunks_with_fallback two_chunk_csv
  = Yield chunk_1 (Yield chunk_2 StopIteration).
Proof.
  apply (iter_chunks_strict_wins two_chunk_csv). reflexivity.
Defined.

(** X2.  In general the generator hands out every chunk of the strict reader
    and then, when that reader raised, every chunk of the fallback reader;
    it raises only when both readers raise, and then with the exception of
    the fallback reader. *)
Theorem iter_chunks_shape (f : file_like) :
  chunks (iter_chunks_with_fallback f)
  = chunks (read_csv f engine_c (Some ","))
    ++ match reader_error (read_csv f engine_c (Some ",")) with
       | Some _ => chunks (read_csv f engine_python None)
       | None => []
       end ∧
  reader_error (iter_chunks_with_fallback f)
  = match reader_error (read_csv f engine_c (Some ",")) with
    | Some _ => reader_error (read_csv f engine_python None)
    | None => None
    end.
Proof.
  unfold iter_chunks_with_fallback, make_reader.
  split; [apply first_attempt_chunks|apply first_attempt_error].
Qed.

(** X3.  When the generator ends without raising, the file's frame is the
    records of the delivered chunks in delivery order, nothing is written to
    the page, and the function returns [None] exactly when there is no
    record. *)
Theorem process_csv_frame (f : file_like) (display_name : string)
    (channel_dict : gmap string string) :
  reader_error (iter_chunks_with_fallback f) = None →
  process_csv_for_channel_assets f display_name channel_dict
  = ([], Ret match concat (map (chunk_records channel_dict)
                               (chunks (iter_chunks_with_fallback f))) with
             | [] => None
             | r :: df => Some (r :: df)
             end).
Proof.
  intros Hok. unfold process_csv_for_channel_assets.
  rewrite (for_chunks_complete _ _ _ Hok).
  pose proof (foldl_loop_body_concat channel_dict
                (chunks (iter_chunks_with_fallback f)) []) as Hcat.
  pose proof (foldl_loop_body_nonempty channel_dict
                (chunks (iter_chunks_with_fallback f)) []
                (Forall_nil_2 _)) as Hne.
  simpl in Hcat. rewrite <- Hcat.
  destruct (foldl _ _ _) as [|df frames] eqn:Hfold; [done|].
  assert (concat (df :: frames) ≠ []) as Hc
    by (by apply concat_nonempty).
  by destruct (concat (df :: frames)).
Qed.

Lemma process_csv_frame_witness :
  process_csv_for_channel_assets two_chunk_csv "report.csv" sample_dict
  = ([], Ret (Some [mkMapping "A1" "UC1" (Some "Renamed");
                    mkMapping "A2" "UC2" (Some "Second")])).
Proof.
  rewrite (process_csv_frame two_chunk_csv "report.csv" sample_dict);
    [|reflexivity].
  vm_compute. reflexivity.
Defined.

(** X4.  Whatever the file and the mapping, a frame returned by the per-file
    function is never empty: the function gives [None] or at least one
    record. *)
Theorem process_csv_never_empty (f : file_like) (display_name : string)
    (channel_dict : gmap string string) (events : list st_event)
    (df : list mapping) :
  process_csv_for_channel_assets f display_name channel_dict
  = (events, Ret (Some df)) →
  df ≠ [] ∧ events = [].
Proof.
  unfold process_csv_for_channel_assets.
  pose proof (for_chunks_cases channel_dict (iter_chunks_with_fallback f) [])
    as Hcases.
  destruct (reader_error (iter_chunks_with_fallback f)) as [e|].
  - rewrite Hcases. discriminate.
  - rewrite Hcases.
    pose proof (foldl_loop_body_nonempty channel_dict
                  (chunks (iter_chunks_with_fallback f)) []
                  (Forall_nil_2 _)) as Hne.
    destruct (foldl _ _ _) as [|x frames]; [discriminate|].
    intros [= <- <-]. split; [|done].
    by apply (concat_nonempty (x :: frames)).
Qed.

Lemma process_csv_never_empty_witness :
  [mkMapping "A1" "UC1" (Some "Renamed")] ≠ [] ∧ @nil st_event = [].
Proof.
  apply (process_csv_never_empty plain_csv "report.csv" sample_dict).
  vm_compute. reflexivity.
Defined.

(** X5.  Whatever the file and the mapping, every record of a returned frame
    has a Channel ID that is a key of the mapping and carries the label the
    mapping holds for it (never NaN), and both of its texts are free of
    non-breaking spaces and of whitespace at either end. *)
Theorem process_csv_records_sound (f : file_like) (display_name : string)
    (channel_dict : gmap string string) (events : list st_event)
    (df : list mapping) (r : mapping) :
  process_csv_for_channel_assets f display_name channel_dict
  = (events, Ret (Some df)) →
  r ∈ df →
  (∃ label, channel_dict !! Channel_ID r = Some label ∧
            Channel_Name r = Some label) ∧
  trimmed (Asset_ID r) ∧ trimmed (Channel_ID r) ∧
  (Str.nbsp ∉ Str.chars (Asset_ID r)) ∧
  (Str.nbsp ∉ Str.chars (Channel_ID r)).
Proof.
  unfold process_csv_for_channel_assets.
  pose proof (for_chunks_cases channel_dict (iter_chunks_with_fallback f) [])
    as Hcases.
  destruct (reader_error (iter_chunks_with_fallback f)) as [e|];
    rewrite Hcases; [discriminate|].
  pose proof (foldl_loop_body_concat channel_dict
                (chunks (iter_chunks_with_fallback f)) []) as Hcat.
  destruct (foldl _ _ _) as [|x frames]; [discriminate|].
  intros [= <- <-] Hr. change (r ∈ concat (x :: frames)) in Hr.
  rewrite Hcat in Hr. simpl in Hr.
  apply list_elem_of_In, in_concat in Hr as (recs & Hrecs & Hr).
  apply list_elem_of_In in Hr.
  apply list_elem_of_In, list_elem_of_fmap in Hrecs as (chunk & -> & _).
  apply chunk_records_sound in Hr
    as (Hname & [label Hlabel] & row & _ & Ha & Hc).
  split; [exists label; split; congruence|].
  rewrite Ha, Hc.
  repeat split; try apply strip_trimmed; apply normalize_no_nbsp.
Qed.

Lemma process_csv_records_sound_witness :
  (∃ label, sample_dict !! "UC2" = Some label ∧ Some "Second" = Some label) ∧
  trimmed "A2" ∧ trimmed "UC2" ∧
  (Str.nbsp ∉ Str.chars "A2") ∧ (Str.nbsp ∉ Str.chars "UC2").
Proof.
  apply (process_csv_records_sound two_chunk_csv "report.csv" sample_dict []
           [mkMapping "A1" "UC1" (Some "Renamed");
            mkMapping "A2" "UC2" (Some "Second")]
           (mkMapping "A2" "UC2" (Some "Second"))).
  - vm_compute. reflexivity.
  - right. left.
Defined.

(** X6.  A file all of whose delivered chunks have at most 6 columns gives
    no frame and no diagnostic: the shape mismatch is skipped silently. *)
Theorem process_csv_narrow_chunks (f : file_like) (display_name : string)
    (channel_dict : gmap string string) :
  reader_error (iter_chunks_with_fallback f) = None →
  Forall (λ chunk, (shape1 chunk ≤ 6)%nat)
         (chunks (iter_chunks_with_fallback f)) →
  process_csv_for_channel_assets f display_name channel_dict = ([], Ret None).
Proof.
  intros Hok Hnarrow. unfold process_csv_for_channel_assets.
  rewrite (for_chunks_complete _ _ _ Hok).
  assert (foldl (loop_body channel_dict) []
                (chunks (iter_chunks_with_fallback f)) = []) as ->; [|done].
  induction Hnarrow as [|chunk cs Hc _ IH]; [done|]. simpl.
  unfold loop_body at 2.
  destruct (Nat.leb_spec (shape1 chunk)
              (Nat.max ASSET_COL_IDX CHANNEL_COL_IDX)) as [_|Hgt]; [done|].
  unfold ASSET_COL_IDX, CHANNEL_COL_IDX in Hgt. simpl in Hgt. lia.
Qed.

Lemma process_csv_narrow_chunks_witness :
  process_csv_for_channel_assets narrow_csv "narrow.csv" sample_dict
  = ([], Ret None).
Proof.
  apply process_csv_narrow_chunks.
  - reflexivity.
  - constructor; [vm_compute; lia|constructor].
Defined.

(** ** String methods *)

Section str_more.

Lemma lstrip_id s :
  (∀ c, Str.first_char s = Some c → Str.isspace c = false) →
  Str.lstrip s = s.
Proof.
  destruct s as [|a s]; simpl; [done|]. intros H.
  by rewrite (H a eq_refl).
Qed.

Lemma rstrip_id s :
  (∀ c, Str.last_char s = Some c → Str.isspace c = false) →
  Str.rstrip s = s.
Proof.
  induction s as [|a s IH]; simpl; [done|]. intros H.
  destruct s as [|b s].
  - simpl. by rewrite (H a eq_refl).
  - rewrite IH by exact H. done.
Qed.

Lemma strip_id s : trimmed s → Str.strip s = s.
Proof.
  intros [Hfirst Hlast]. unfold Str.strip.
  rewrite lstrip_id by done. by apply rstrip_id.
Qed.

Lemma replace_id old new s :
  old ∉ Str.chars s → Str.replace old new s = s.
Proof.
  induction s as [|a s IH]; simpl; [done|].
  intros [Hne Hs]%not_elem_of_cons.
  destruct (Ascii.eqb_spec a old); [congruence|]. by rewrite IH.
Qed.

Lemma strip_chars s c : c ∈ Str.chars (Str.strip s) → c ∈ Str.chars s.
Proof. intros H. by apply lstrip_chars, rstrip_chars. Qed.

Lemma normalize_fixed s :
  trimmed s → (Str.nbsp ∉ Str.chars s) → normalize s = s.
Proof.
  intros Ht Hn. unfold normalize. rewrite replace_id by done.
  by apply strip_id.
Qed.

Lemma startswith_empty s : Str.startswith s "" = true.
Proof. by destruct s. Qed.

Lemma contains_slash_cons c s :
  Str.contains "/" (String c s)
  = Ascii.eqb c "/" || Str.contains "/" s.
Proof.
  cbn [Str.contains Str.startswith].
  rewrite startswith_empty, andb_true_r.
  by rewrite (Ascii.eqb_sym "/" c).
Qed.

Lemma endswith_refl s : Str.endswith s s = true.
Proof. destruct s; simpl; [done|]. by rewrite Ascii.eqb_refl, String.eqb_refl. Qed.

Lemma basename_contains_no_slash p :
  Str.contains "/" (Str.basename p) = false.
Proof.
  induction p as [|c p IH]; [done|].
  cbn [Str.basename].
  destruct (Str.contains "/" p) eqn:Hp; [exact IH|].
  destruct (Ascii.eqb c "/") eqn:Hc; [exact Hp|].
  by rewrite contains_slash_cons, Hc, Hp.
Qed.

End str_more.

(** X7.  Cleaning is idempotent: normalizing a normalized text changes
    nothing, so a cell that already holds a cleaned value is cleaned to
    itself. *)
Theorem normalize_idempotent (s : string) (c : cell) :
  normalize (normalize s) = normalize s ∧
  clean (Some (clean c)) = clean c.
Proof.
  assert (∀ t, normalize (normalize t) = normalize t) as H.
  { intros t. apply normalize_fixed; [apply strip_trimmed|].
    apply normalize_no_nbsp. }
  split; [apply H|]. rewrite !clean_normalize. simpl. apply H.
Qed.

(** X8.  [os.path.basename] returns a text without "/", which is an end of
    the path it was given, and returns a path without "/" unchanged. *)
Theorem basename_spec (p : string) :
  Str.contains "/" (Str.basename p) = false ∧
  Str.endswith p (Str.basename p) = true ∧
  (Str.contains "/" p = false → Str.basename p = p).
Proof.
  split; [|split].
  - apply basename_contains_no_slash.
  - induction p as [|c p IH]; [done|].
    cbn [Str.basename Str.endswith].
    destruct (Str.contains "/" p) eqn:Hp.
    + rewrite IH. apply orb_true_r.
    + destruct (Ascii.eqb c "/").
      * rewrite endswith_refl. apply orb_true_r.
      * by rewrite String.eqb_refl.
  - destruct p as [|c p]; [done|].
    rewrite contains_slash_cons. intros [Hc Hp]%orb_false_elim.
    cbn [Str.basename]. by rewrite Hp, Hc.
Qed.

Lemma basename_spec_witness :
  Str.basename "report.csv" = "report.csv".
Proof.
  apply (basename_spec "report.csv"). reflexivity.
Defined.

(** ** The reference table loader, continued *)

Section loader_more.

Implicit Types (d : gmap string string) (row : list cell).

Lemma foldl_add_channel_from_rows rws d k v :
  foldl add_channel d rws !! k = Some v →
  d !! k = Some v ∨
  ∃ row, row ∈ rws ∧ clean (iloc row 0) = k ∧ clean (iloc row 1) = v.
Proof.
  revert d. induction rws as [|row rws IH]; intros d; simpl; [by left|].
  intros H. apply IH in H as [H | (r & Hr & Hk & Hv)].
  - destruct (add_channel_cases d row) as [Heq | (Heq & _)];
      rewrite Heq in H; [by left|].
    destruct (decide (clean (iloc row 0) = k)) as [Hk|Hk].
    + rewrite Hk, lookup_insert_eq in H. injection H as Hv.
      right. exists row. split; [left|done].
    + rewrite lookup_insert_ne in H by done. by left.
  - right. exists r. split; [by right|done].
Qed.

Lemma foldl_add_channel_size rws d :
  (size (foldl add_channel d rws) ≤ size d + length rws)%nat.
Proof.
  revert d. induction rws as [|row rws IH]; intros d; simpl; [lia|].
  etransitivity; [apply IH|].
  destruct (add_channel_cases d row) as [-> | (-> & _)]; [lia|].
  destruct (d !! clean (iloc row 0)) eqn:Hd.
  - rewrite map_size_insert_Some by done. lia.
  - rewrite map_size_insert_None by done. lia.
Qed.

Lemma rejected_iff s : s ∈ rejected_texts ↔ ¬ valid_text s.
Proof.
  unfold rejected_texts, valid_text. rewrite elem_of_cons, <- lower_nan_iff.
  split.
  - intros [-> | H] [H1 H2]; done.
  - intros H. destruct (decide (s = "")) as [|Hne]; [by left|].
    right. destruct (decide (Str.lower s = "nan")); [done|].
    exfalso. by apply H.
Qed.

End loader_more.

(** X9.  The loader invents nothing: every entry of the mapping is the
    cleaned identifier and the cleaned label of one row of the table, and
    the mapping has at most as many entries as the table has rows. *)
Theorem load_channel_data_from_rows (df : DataFrame)
    (events : list st_event) (channel_dict : gmap string string)
    (k v : string) :
  load_channel_data (inr df) = (events, Ret channel_dict) →
  channel_dict !! k = Some v →
  (∃ row, row ∈ rows df ∧ clean (iloc row 0) = k ∧ clean (iloc row 1) = v) ∧
  (size channel_dict ≤ length (rows df))%nat.
Proof.
  unfold load_channel_data.
  destruct (shape1 df <? 2)%nat.
  - intros [= <- <-] H. by rewrite lookup_empty in H.
  - intros [= <- <-] H. split.
    + apply foldl_add_channel_from_rows in H as [H|H]; [|done].
      by rewrite lookup_empty in H.
    + pose proof (foldl_add_channel_size (rows df) ∅) as Hs.
      rewrite map_size_empty in Hs. exact Hs.
Qed.

Lemma load_channel_data_from_rows_witness :
  (∃ row, row ∈ [ [Some " UC1 "; Some "First"] ] ∧
          clean (iloc row 0) = "UC1" ∧ clean (iloc row 1) = "First") ∧
  (size (foldl add_channel ∅ [ [Some " UC1 "; Some "First"] ]) ≤ 1)%nat.
Proof.
  apply (load_channel_data_from_rows
           (mkDataFrame 2 [ [Some " UC1 "; Some "First"] ]) []
           (foldl add_channel ∅ [ [Some " UC1 "; Some "First"] ])
           "UC1" "First").
  - reflexivity.
  - vm_compute. reflexivity.
Defined.

(** X10.  A row of the reference table is skipped exactly when its cleaned
    identifier or its cleaned label is empty or one of the eight spellings
    of "nan"; otherwise the entry is written, over any earlier entry of the
    same identifier. *)
Theorem add_channel_rejects (channel_dict : gmap string string)
    (row : list cell) :
  add_channel channel_dict row
  = if decide (clean (iloc row 0) ∈ rejected_texts ∨
               clean (iloc row 1) ∈ rejected_texts)
    then channel_dict
    else <[clean (iloc row 0) := clean (iloc row 1)]> channel_dict.
Proof.
  destruct (decide _) as [Hrej|Hok].
  - apply add_channel_invalid. rewrite !rejected_iff in Hrej. tauto.
  - apply add_channel_valid.
    + destruct (decide (valid_text (clean (iloc row 0)))); [done|].
      exfalso. apply Hok. left. by apply rejected_iff.
    + destruct (decide (valid_text (clean (iloc row 1)))); [done|].
      exfalso. apply Hok. right. by apply rejected_iff.
Qed.

(** X11.  Loader and matcher agree: when the identifier cell of a row holds
    a key of a loaded mapping as it is stored there, in a batch wide
    enough, the batch contributes the record of that row with the label of
    that key. *)
Theorem loaded_key_matches (f : excel_file) (events : list st_event)
    (channel_dict : gmap string string) (k label : string)
    (chunk : DataFrame) (row : list cell) :
  load_channel_data f = (events, Ret channel_dict) →
  channel_dict !! k = Some label →
  (ASSET_COL_IDX < shape1 chunk)%nat →
  (CHANNEL_COL_IDX < shape1 chunk)%nat →
  row ∈ rows chunk →
  iloc row CHANNEL_COL_IDX = Some k →
  mkMapping (clean (iloc row ASSET_COL_IDX)) k (Some label)
  ∈ chunk_records channel_dict chunk.
Proof.
  intros Hload Hk Ha Hc Hrow Hcell.
  assert (normalized k) as (_ & Hnbsp & Htrim).
  { destruct f as [e|df]; simpl in Hload.
    - injection Hload as _ <-. by rewrite lookup_empty in Hk.
    - destruct (shape1 df <? 2)%nat; injection Hload as _ <-.
      + by rewrite lookup_empty in Hk.
      + by apply (foldl_add_channel_normalized (rows df) ∅
                    (map_Forall_empty _) k label). }
  assert (clean (iloc row CHANNEL_COL_IDX) = k) as Hclean.
  { rewrite Hcell, clean_normalize. simpl. by apply normalize_fixed. }
  unfold chunk_records, loop_body.
  destruct (Nat.leb_spec (shape1 chunk)
              (Nat.max ASSET_COL_IDX CHANNEL_COL_IDX)) as [Hle|_].
  { unfold ASSET_COL_IDX, CHANNEL_COL_IDX in *. simpl in Hle. lia. }
  assert (mkMapping (clean (iloc row ASSET_COL_IDX)) k (Some label)
          ∈ subset_of channel_dict (filtered_rows (dom channel_dict) chunk))
    as Hin.
  { unfold subset_of. apply list_elem_of_fmap.
    exists (clean (iloc row ASSET_COL_IDX), k). simpl.
    split; [by rewrite Hk|].
    unfold filtered_rows. apply list_elem_of_filter. simpl.
    split; [apply elem_of_dom; by exists label|].
    unfold cleaned_columns. apply list_elem_of_fmap.
    exists row. by rewrite Hclean. }
  destruct (filtered_rows (dom channel_dict) chunk) as [|p ps];
    [by apply elem_of_nil in Hin|].
  rewrite app_nil_l. simpl concat. rewrite app_nil_r. exact Hin.
Qed.

Lemma loaded_key_matches_witness :
  mkMapping "A9" "UC2" (Some "Second")
  ∈ chunk_records (foldl add_channel ∅
                     [ [Some "UC2"; Some "Second"] ])
                  (mkDataFrame 7 [data_row (Some "A9") (Some "UC2")]).
Proof.
  apply (loaded_key_matches
           (inr (mkDataFrame 2 [ [Some "UC2"; Some "Second"] ])) []
           _ "UC2" "Second"
           (mkDataFrame 7 [data_row (Some "A9") (Some "UC2")])
           (data_row (Some "A9") (Some "UC2"))).
  - reflexivity.
  - vm_compute. reflexivity.
  - vm_compute. lia.
  - vm_compute. lia.
  - left.
  - reflexivity.
Defined.

(** ** Archive extraction, continued *)

Section archive.

Implicit Types (info : ZipInfo) (csv_items : list (string * file_like)).

Lemma extract_loop_cons info rest csv_items :
  extract_loop (info :: rest) csv_items
  = if eligible info then
      match read info with
      | inl e => inl e
      | inr data =>
          extract_loop rest
            (csv_items ++ [(Str.basename (filename info), data)])
      end
    else extract_loop rest csv_items.
Proof.
  cbn [extract_loop]. unfold eligible.
  destruct (is_dir info); [done|].
  destruct (Str.truthy (Str.basename (filename info))); [|done].
  destruct (Str.startswith (Str.basename (filename info)) "__MACOSX"
            || Str.contains "/__MACOSX" (filename info)); [done|].
  destruct (Str.startswith (Str.basename (filename info)) "."); [done|].
  by destruct (Str.endswith (Str.lower (Str.basename (filename info))) ".csv").
Qed.

Lemma extract_loop_app pre rest csv_items :
  extract_loop (pre ++ rest) csv_items
  = match extract_loop pre csv_items with
    | inl e => inl e
    | inr items => extract_loop rest items
    end.
Proof.
  revert csv_items. induction pre as [|info pre IH]; intros csv_items;
    [done|].
  rewrite <- app_comm_cons, !extract_loop_cons.
  destruct (eligible info); [|apply IH].
  destruct (read info); [done|apply IH].
Qed.

Lemma extract_loop_readable infolist csv_items :
  Forall (λ info, eligible info = true → ∃ data, read info = inr data)
         infolist →
  extract_loop infolist csv_items
  = inr (csv_items
         ++ omap member_item (filter (λ info, eligible info = true) infolist)).
Proof.
  intros Hall. revert csv_items.
  induction Hall as [|info rest Hinfo _ IH]; intros csv_items.
  - simpl. by rewrite app_nil_r.
  - rewrite extract_loop_cons, filter_cons.
    destruct (eligible info) eqn:He.
    + destruct (Hinfo eq_refl) as [data Hdata].
      rewrite decide_True by done. simpl. unfold member_item at 1.
      rewrite Hdata, IH. by rewrite <- app_assoc.
    + rewrite decide_False by done. apply IH.
Qed.

Lemma extract_loop_items infolist csv_items items :
  extract_loop infolist csv_items = inr items →
  ∃ new, items = csv_items ++ new ∧
         (length new ≤ length infolist)%nat ∧
         Forall (λ item, ∃ info data,
                   info ∈ infolist ∧ eligible info = true ∧
                   read info = inr data ∧
                   item = (Str.basename (filename info), data)) new.
Proof.
  revert csv_items. induction infolist as [|info rest IH]; intros csv_items.
  - simpl. intros [= <-]. exists []. by rewrite app_nil_r.
  - rewrite extract_loop_cons.
    destruct (eligible info) eqn:He.
    + destruct (read info) as [e|data] eqn:Hread; [discriminate|].
      intros (new & -> & Hlen & Hall)%IH.
      exists ((Str.basename (filename info), data) :: new).
      split; [by rewrite <- app_assoc|]. split; [simpl; lia|].
      constructor.
      * exists info, data. split; [left|done].
      * eapply Forall_impl; [exact Hall|].
        intros item (i & dt & Hi & ? & ? & ?). exists i, dt.
        split; [by right|done].
    + intros (new & -> & Hlen & Hall)%IH. exists new.
      split; [done|]. split; [simpl; lia|].
      eapply Forall_impl; [exact Hall|].
      intros item (i & dt & Hi & ? & ? & ?). exists i, dt.
      split; [by right|done].
Qed.

End archive.

(** X12.  In an archive without a member of empty name, when every member
    that passes the name tests can be read, the extraction returns, in
    archive order, one input file per such member, named by its base name;
    members that fail the tests are never read, so a damaged one among them
    does no harm. *)
Theorem extract_readable (infolist : list ZipInfo) :
  Forall (λ info, filename info ≠ "") infolist →
  Forall (λ info, eligible info = true → ∃ data, read info = inr data)
         infolist →
  extract_csv_filelikes_from_zip (inr infolist)
  = inr (omap member_item (filter (λ info, eligible info = true) infolist)).
Proof.
  intros _ Hall. simpl. by rewrite extract_loop_readable.
Qed.

Lemma extract_readable_witness :
  extract_csv_filelikes_from_zip (inr harmless_archive)
  = inr [("a.csv", plain_csv); ("c.CSV", two_chunk_csv)].
Proof.
  rewrite (extract_readable harmless_archive).
  - vm_compute. reflexivity.
  - repeat constructor; discriminate.
  - repeat constructor; vm_compute; intros H;
      first [discriminate H | eexists; reflexivity].
Defined.

(** X13.  When a member that passes the name tests cannot be read, and the
    members before it have non-empty names and could be read where they
    pass the tests, the whole extraction raises that member's exception: no
    file of the archive is returned, not even the ones read before it. *)
Theorem extract_fails_on_unreadable_member
    (pre post : list ZipInfo) (info : ZipInfo) (e : string) :
  Forall (λ i, filename i ≠ "") pre →
  Forall (λ i, eligible i = true → ∃ data, read i = inr data) pre →
  eligible info = true →
  read info = inl e →
  extract_csv_filelikes_from_zip (inr (pre ++ info :: post)) = inl e.
Proof.
  intros _ Hpre He Hread. simpl.
  rewrite extract_loop_app, (extract_loop_readable pre [] Hpre).
  by rewrite extract_loop_cons, He, Hread.
Qed.

Lemma extract_fails_on_unreadable_member_witness :
  extract_csv_filelikes_from_zip (inr damaged_archive)
  = inl "Bad CRC-32 for file 'b.csv'".
Proof.
  apply (extract_fails_on_unreadable_member
           [mkZipInfo "a.csv" false (inr plain_csv)]
           [mkZipInfo "c.csv" false (inr plain_csv)]
           (mkZipInfo "b.csv" false (inl "Bad CRC-32 for file 'b.csv'"))).
  - repeat constructor. discriminate.
  - repeat constructor. intros _. eexists. reflexivity.
  - reflexivity.
  - reflexivity.
Defined.

(** X14.  Every input file the extraction returns is a member of the archive
    that is not a folder, and its display name is that member's base name:
    it is not empty, holds no "/", does not start with "." or "__MACOSX" and
    ends in ".csv" in some letter case.  The extraction never returns more
    files than the archive has members. *)
Theorem extract_display_names (infolist : list ZipInfo)
    (items : list (string * file_like)) (display_name : string)
    (data : file_like) :
  extract_csv_filelikes_from_zip (inr infolist) = inr items →
  (display_name, data) ∈ items →
  (length items ≤ length infolist)%nat ∧
  (∃ info, info ∈ infolist ∧ is_dir info = false ∧
           read info = inr data ∧
           display_name = Str.basename (filename info)) ∧
  display_name ≠ "" ∧
  Str.contains "/" display_name = false ∧
  Str.startswith display_name "." = false ∧
  Str.startswith display_name "__MACOSX" = false ∧
  Str.endswith (Str.lower display_name) ".csv" = true.
Proof.
  simpl. intros (new & -> & Hlen & Hall)%extract_loop_items Hin.
  rewrite app_nil_l in *. split; [done|].
  rewrite Forall_forall in Hall.
  destruct (Hall _ Hin) as (info & dt & Hinfo & He & Hread & [= -> ->]).
  unfold eligible in He.
  destruct (is_dir info) eqn:Hdir; [done|].
  destruct (Str.truthy (Str.basename (filename info))) eqn:Htruthy; [|done].
  destruct (Str.startswith (Str.basename (filename info)) "__MACOSX")
    eqn:Hmac; [done|].
  destruct (Str.contains "/__MACOSX" (filename info)); [done|].
  destruct (Str.startswith (Str.basename (filename info)) ".") eqn:Hdot;
    [done|].
  simpl in He.
  split; [by exists info|].
  split; [by apply truthy_nonempty|].
  split; [apply basename_contains_no_slash|done].
Qed.

Lemma extract_display_names_witness :
  (length [("a.csv", plain_csv); ("c.CSV", two_chunk_csv)]
   ≤ length harmless_archive)%nat ∧
  (∃ info, info ∈ harmless_archive ∧ is_dir info = false ∧
           read info = inr two_chunk_csv ∧
           "c.CSV" = Str.basename (filename info)) ∧
  "c.CSV" ≠ "" ∧
  Str.contains "/" "c.CSV" = false ∧
  Str.startswith "c.CSV" "." = false ∧
  Str.startswith "c.CSV" "__MACOSX" = false ∧
  Str.endswith (Str.lower "c.CSV") ".csv" = true.
Proof.
  apply (extract_display_names harmless_archive
           [("a.csv", plain_csv); ("c.CSV", two_chunk_csv)]
           "c.CSV" two_chunk_csv).
  - vm_compute. reflexivity.
  - right. left.
Defined.

(** ** The aggregator, continued *)

Section aggregator.

Implicit Types (seen : gset (string * string)) (df : list mapping).

Lemma sort_values_of_sorted df : Sorted key_le df → sort_values df = df.
Proof.
  induction df as [|r df IH]; [done|]. intros Hs.
  apply Sorted_inv in Hs as [Hs Hhd]. simpl.
  change (foldr insert_row [] df) with (sort_values df).
  rewrite (IH Hs). destruct df as [|x df]; [done|].
  apply HdRel_inv in Hhd. simpl. unfold key_le in Hhd. by rewrite Hhd.
Qed.

Lemma drop_duplicates_from_fresh seen df :
  NoDup (map pair_of df) →
  (∀ r, r ∈ df → pair_of r ∉ seen) →
  drop_duplicates_from seen df = df.
Proof.
  revert seen. induction df as [|x df IH]; intros seen Hnd Hfresh; [done|].
  simpl in *. apply NoDup_cons in Hnd as [Hx Hnd].
  rewrite decide_False by (apply Hfresh; left).
  f_equal. apply IH; [done|].
  intros r Hr [Heq%elem_of_singleton | Hs]%elem_of_union.
  - apply Hx. rewrite <- Heq. apply list_elem_of_fmap. by exists r.
  - apply (Hfresh r); [by right|done].
Qed.

Lemma drop_duplicates_from_seen seen df :
  (∀ r, r ∈ df → pair_of r ∈ seen) → drop_duplicates_from seen df = [].
Proof.
  induction df as [|x df IH]; intros Hall; [done|]. simpl.
  rewrite decide_True by (apply Hall; left).
  apply IH. intros r Hr. apply Hall. by right.
Qed.

Lemma drop_duplicates_from_app seen df1 df2 :
  drop_duplicates_from seen (df1 ++ df2)
  = drop_duplicates_from seen df1
    ++ drop_duplicates_from (list_to_set (map pair_of df1) ∪ seen) df2.
Proof.
  revert seen. induction df1 as [|x df1 IH]; intros seen; simpl.
  - by rewrite (left_id_L ∅ (∪)).
  - destruct (decide (pair_of x ∈ seen)) as [Hin|Hout].
    + rewrite IH. f_equal. f_equal.
      apply set_eq. intros p. rewrite !elem_of_union, elem_of_singleton.
      split; [tauto|]. intros [[-> | ?] | ?]; tauto.
    + simpl. rewrite IH. f_equal. f_equal. f_equal.
      apply set_eq. intros p. rewrite !elem_of_union, elem_of_singleton.
      tauto.
Qed.

Lemma drop_duplicates_absorbs a ys c :
  (∀ r, r ∈ ys → pair_of r ∈ map pair_of a) →
  drop_duplicates (a ++ ys ++ c) = drop_duplicates (a ++ c).
Proof.
  intros Hys. unfold drop_duplicates.
  rewrite !drop_duplicates_from_app. f_equal.
  rewrite drop_duplicates_from_seen.
  - simpl. f_equal. apply set_eq. intros p.
    rewrite !elem_of_union, !elem_of_list_to_set. split; [|tauto].
    intros [Hp | Hp]; [|done]. left.
    apply list_elem_of_fmap in Hp as (r & -> & Hr). by apply Hys.
  - intros r Hr. apply elem_of_union_l, elem_of_list_to_set. by apply Hys.
Qed.

Lemma drop_duplicates_from_length seen df :
  (length (drop_duplicates_from seen df) ≤ length df)%nat.
Proof.
  revert seen. induction df as [|x df IH]; intros seen; simpl; [done|].
  destruct (decide _); simpl.
  - etransitivity; [apply IH|lia].
  - apply le_n_S, IH.
Qed.

Lemma nunique_le (col : list string) : (nunique col ≤ length col)%nat.
Proof.
  unfold nunique. induction col as [|x col IH]; simpl; [done|].
  destruct (decide_rel _ _ _); simpl; lia.
Qed.

End aggregator.

(** X15.  Aggregation is idempotent: the final frame, aggregated again on
    its own, is the final frame. *)
Theorem final_df_idempotent (all_results : list (list mapping)) :
  final_df [final_df all_results] = final_df all_results.
Proof.
  unfold final_df at 1. simpl. rewrite app_nil_r.
  unfold drop_duplicates. rewrite drop_duplicates_from_fresh.
  - apply sort_values_of_sorted, StronglySorted_Sorted, sort_values_sorted.
  - unfold final_df. rewrite sort_values_perm.
    apply drop_duplicates_from_NoDup.
  - intros r _. apply not_elem_of_empty.
Qed.

(** X16.  Rows whose (Asset ID, Channel ID) pair already occurs earlier in
    the concatenation do not change the final frame, wherever they come
    later: a file that repeats rows of an earlier file leaves the result as
    it is. *)
Theorem final_df_absorbs_repeats (all_results all_results' : list (list mapping))
    (a ys c : list mapping) :
  concat all_results = a ++ ys ++ c →
  concat all_results' = a ++ c →
  (∀ r, r ∈ ys → pair_of r ∈ map pair_of a) →
  final_df all_results = final_df all_results'.
Proof.
  intros H1 H2 Hys. unfold final_df. rewrite H1, H2.
  by rewrite drop_duplicates_absorbs.
Qed.

Lemma final_df_absorbs_repeats_witness :
  final_df [ [mkMapping "A1" "UC1" (Some "Renamed");
              mkMapping "A1" "UC1" (Some "Renamed");
              mkMapping "A2" "UC2" (Some "Second")] ]
  = final_df [ [mkMapping "A1" "UC1" (Some "Renamed");
                mkMapping "A2" "UC2" (Some "Second")] ].
Proof.
  apply (final_df_absorbs_repeats _ _
           [mkMapping "A1" "UC1" (Some "Renamed")]
           [mkMapping "A1" "UC1" (Some "Renamed")]
           [mkMapping "A2" "UC2" (Some "Second")]).
  - reflexivity.
  - reflexivity.
  - intros r ->%list_elem_of_singleton. left.
Defined.

(** X17.  The final frame holds only rows of the per-file frames, is never
    longer than their concatenation and is empty only when that is empty;
    the counts of distinct Asset IDs and of distinct Channel IDs shown
    beside it never exceed its number of rows. *)
Theorem final_df_bounds (all_results : list (list mapping)) :
  (∀ r, r ∈ final_df all_results → r ∈ concat all_results) ∧
  (length (final_df all_results) ≤ length (concat all_results))%nat ∧
  (final_df all_results = [] ↔ concat all_results = []) ∧
  (nunique (map Asset_ID (final_df all_results))
   ≤ length (final_df all_results))%nat ∧
  (nunique (map Channel_ID (final_df all_results))
   ≤ length (final_df all_results))%nat.
Proof.
  split; [|split; [|split; [|split]]].
  - intros r Hr. unfold final_df in Hr. rewrite sort_values_perm in Hr.
    by apply drop_duplicates_from_elem in Hr as [Hr _].
  - unfold final_df. rewrite sort_values_perm.
    apply drop_duplicates_from_length.
  - unfold final_df. split.
    + intros Hnil.
      assert (drop_duplicates (concat all_results) = []) as Hd.
      { apply Permutation_nil_r. rewrite <- Hnil.
        symmetry. apply sort_values_perm. }
      destruct (concat all_results) as [|r l]; [done|].
      unfold drop_duplicates in Hd. simpl in Hd.
      rewrite decide_False in Hd by apply not_elem_of_empty. discriminate.
    + by intros ->.
  - etransitivity; [apply nunique_le|]. by rewrite length_map.
  - etransitivity; [apply nunique_le|]. by rewrite length_map.
Qed.

(** ** The script, continued *)

Section script_more.

Implicit Types (d : gmap string string) (w : widgets).

Lemma process_csv_cases f display_name d :
  (∃ e, process_csv_for_channel_assets f display_name d
        = ([st_warning ("Error reading " +:+ display_name +:+ ": " +:+ e)],
           Ret None)) ∨
  process_csv_for_channel_assets f display_name d = ([], Ret None) ∨
  (∃ r df, process_csv_for_channel_assets f display_name d
           = ([], Ret (Some (r :: df))) ∧
           Forall (λ x, ∃ chunk, x ∈ chunk_records d chunk) (r :: df)).
Proof.
  unfold process_csv_for_channel_assets.
  pose proof (for_chunks_cases d (iter_chunks_with_fallback f) []) as Hcases.
  destruct (reader_error (iter_chunks_with_fallback f)) as [e|];
    rewrite Hcases; [left; by exists e|right].
  pose proof (foldl_loop_body_concat d
                (chunks (iter_chunks_with_fallback f)) []) as Hcat.
  pose proof (foldl_loop_body_nonempty d
                (chunks (iter_chunks_with_fallback f)) []
                (Forall_nil_2 _)) as Hne.
  destruct (foldl _ _ _) as [|x frames]; [by left|right].
  assert (concat (x :: frames) ≠ []) as Hc
    by (by apply (concat_nonempty (x :: frames))).
  destruct (concat (x :: frames)) as [|r df] eqn:Hrows; [done|].
  exists r, df. split; [done|].
  rewrite Hcat. simpl. apply Forall_forall. intros y Hy.
  apply list_elem_of_In, in_concat in Hy as (recs & Hrecs & Hy).
  apply list_elem_of_In, list_elem_of_fmap in Hrecs as (chunk & -> & _).
  exists chunk. by apply list_elem_of_In.
Qed.

(** What the loop over the files keeps true of the collected frames. *)
Lemma process_files_frames d items all_results events final
    (P : list mapping → Prop) :
  (∀ r df, Forall (λ x, ∃ chunk, x ∈ chunk_records d chunk) (r :: df) →
           P (r :: df)) →
  Forall P all_results →
  process_files d items all_results = (events, Ret final) →
  Forall P final.
Proof.
  intros HP. revert all_results events.
  induction items as [|[display_name f] items IH];
    intros all_results events Hacc; simpl.
  - by intros [= _ <-].
  - destruct (process_csv_cases f display_name d)
      as [[e ->] | [-> | (r & df & -> & Hrecs)]]; simpl.
    + destruct (process_files d items all_results) as [ev' out] eqn:Hrest.
      intros [= _ ->]. by eapply IH.
    + destruct (process_files d items all_results) as [ev' out] eqn:Hrest.
      intros [= _ ->]. by eapply IH.
    + destruct (process_files d items (all_results ++ [r :: df]))
        as [ev' out] eqn:Hrest.
      intros [= _ ->]. eapply IH; [|exact Hrest].
      apply Forall_app. split; [done|]. constructor; [by apply HP|done].
Qed.

Lemma process_files_lines d items all_results events final :
  process_files d items all_results = (events, Ret final) →
  length (filter (λ e, is_write e = true) events) = length items ∧
  all_results `prefix_of` final ∧
  (length final ≤ length all_results + length items)%nat.
Proof.
  revert all_results events.
  induction items as [|[display_name f] items IH];
    intros all_results events; simpl.
  - intros [= <- <-]. split; [done|]. split; [done|lia].
  - destruct (process_csv_cases f display_name d)
      as [[e ->] | [-> | (r & df & -> & _)]]; simpl.
    + destruct (process_files d items all_results) as [ev' out] eqn:Hrest.
      intros [= <- ->]. apply IH in Hrest as (Hn & Hp & Hl).
      rewrite filter_cons_False by done. rewrite filter_cons_True by done.
      simpl. rewrite Hn. split; [done|]. split; [done|lia].
    + destruct (process_files d items all_results) as [ev' out] eqn:Hrest.
      intros [= <- ->]. apply IH in Hrest as (Hn & Hp & Hl).
      rewrite filter_cons_True by done.
      simpl. rewrite Hn. split; [done|]. split; [done|lia].
    + destruct (process_files d items (all_results ++ [r :: df]))
        as [ev' out] eqn:Hrest.
      intros [= <- ->]. apply IH in Hrest as (Hn & Hp & Hl).
      rewrite filter_cons_True by done.
      simpl. rewrite Hn. split; [done|].
      rewrite length_app in Hl. simpl in Hl. split; [|lia].
      etransitivity; [|exact Hp]. by apply prefix_app_r.
Qed.

Lemma prepare_inputs_events w events out :
  prepare_inputs w = (events, out) →
  (length events ≤ 1)%nat ∧
  Forall (λ e, is_write e = false) events.
Proof.
  unfold prepare_inputs.
  destruct (uploaded_zip w) as [zb|].
  - destruct (extract_csv_filelikes_from_zip zb) as [e|[|x extracted]].
    + intros [= <- <-]. simpl. split; [lia|]. by repeat constructor.
    + intros [= <- <-]. simpl. split; [lia|]. by repeat constructor.
    + destruct (MAX_CSV_FILES <? length (x :: extracted))%nat;
        intros [= <- <-]; simpl; (split; [lia|]); by repeat constructor.
  - destruct (uploaded_csvs w); intros [= <- <-]; simpl;
      (split; [lia|]); constructor.
Qed.

Lemma enforce_max_events csvs :
  enforce_max csvs = ([], Ret tt) ∨
  ∃ msg, enforce_max csvs = ([st_error msg], Stopped).
Proof.
  destruct (le_lt_dec (length csvs) MAX_CSV_FILES) as [Hle|Hlt].
  - left. by apply enforce_max_ok.
  - right. by apply enforce_max_over.
Qed.

(** The shape of a run that ends with a frame. *)
Lemma main_shows_frame w events df :
  main w = (events, Ret (Some df)) →
  ∃ excel evl d items ev all_results,
    generate_clicked w = true ∧
    uploaded_excel w = Some excel ∧
    load_channel_data excel = (evl, Ret d) ∧ d ≠ ∅ ∧
    process_files d items [] = (ev, Ret all_results) ∧
    all_results ≠ [] ∧
    df = final_df all_results.
Proof.
  unfold main.
  destruct (enforce_max_events (uploaded_csvs w)) as [-> | [msg ->]];
    [|discriminate].
  simpl. destruct (prepare_inputs w) as [ev1 [items|]]; [|discriminate].
  destruct (generate_clicked w); [|simpl; discriminate].
  unfold generate.
  destruct (uploaded_excel w) as [excel|]; [|simpl; discriminate].
  destruct items as [|item items]; [simpl; discriminate|].
  destruct (load_channel_data_returns excel) as (evl & d & Hload).
  rewrite Hload. cbn -[process_files].
  destruct (decide (d = ∅)) as [|Hd]; [discriminate|].
  destruct (process_files_returns d (item :: items) [])
    as (ev & all_results & Hfiles).
  rewrite Hfiles. cbn -[final_df].
  destruct all_results as [|x all_results]; [discriminate|].
  cbn -[final_df]. intros [= _ <-].
  exists excel, evl, d, (item :: items), ev, (x :: all_results).
  done.
Qed.

End script_more.

(** X18.  Until "Generate Mapping" is clicked, a run loads no reference
    table and processes no file: it ends with no frame, or is stopped by
    the cap or by the archive checks, and the page shows at most one
    message, which is no per-file line. *)
Theorem main_without_click (w : widgets) :
  generate_clicked w = false →
  ∃ events,
    (main w = (events, Ret None) ∨ main w = (events, Stopped)) ∧
    (length events ≤ 1)%nat ∧
    Forall (λ e, is_write e = false) events.
Proof.
  intros Hclick. unfold main. rewrite Hclick.
  destruct (enforce_max_events (uploaded_csvs w)) as [-> | [msg ->]].
  - simpl. destruct (prepare_inputs w) as [ev out] eqn:Hprep.
    apply prepare_inputs_events in Hprep as [Hlen Hev].
    exists ev. destruct out as [items|]; simpl.
    + rewrite app_nil_r. split; [by left|done].
    + split; [by right|done].
  - exists [st_error msg]. simpl. split; [by right|].
    split; [lia|]. by repeat constructor.
Qed.

Lemma main_without_click_witness :
  ∃ events,
    (main (mkWidgets None [] (Some sample_archive) false)
     = (events, Ret None) ∨
     main (mkWidgets None [] (Some sample_archive) false)
     = (events, Stopped)) ∧
    (length events ≤ 1)%nat ∧
    Forall (λ e, is_write e = false) events.
Proof.
  apply (main_without_click (mkWidgets None [] (Some sample_archive) false)).
  reflexivity.
Defined.

(** X19.  After the click, with inputs that passed the cap and the archive
    checks, a missing reference table stops the run with its own error, and
    it is reported before a missing input is; with a table but no input
    file the run stops with the error about the inputs, and the table is
    not loaded. *)
Theorem main_preflight (w : widgets) (events : list st_event)
    (items : list (string * file_like)) :
  (length (uploaded_csvs w) ≤ MAX_CSV_FILES)%nat →
  prepare_inputs w = (events, Ret items) →
  generate_clicked w = true →
  (uploaded_excel w = None →
   main w = (events
             ++ [st_error "Please upload the Channel list Excel file first."],
             Stopped)) ∧
  (is_Some (uploaded_excel w) → items = [] →
   main w = (events
             ++ [st_error
                   "Please upload CSV files or a ZIP containing CSV files."],
             Stopped)).
Proof.
  intros Hle Hprep Hclick. unfold main.
  rewrite (enforce_max_ok _ Hle), Hprep, Hclick. unfold generate.
  split.
  - intros ->. reflexivity.
  - intros [excel ->] ->. reflexivity.
Qed.

Lemma main_preflight_witness :
  main (mkWidgets None [mkUpload "report.csv" plain_csv] None true)
  = ([st_error "Please upload the Channel list Excel file first."], Stopped).
Proof.
  apply (main_preflight
           (mkWidgets None [mkUpload "report.csv" plain_csv] None true)
           [] [("report.csv", plain_csv)]).
  - vm_compute. lia.
  - reflexivity.
  - reflexivity.
  - reflexivity.
Defined.

(** X20.  When the loader returns an empty mapping (unreadable workbook,
    fewer than two columns, or no valid row), the run writes the loader's
    diagnostic if any, then "Loaded 0 channel IDs with names." and the error
    about the reference table, and stops before any input file is
    processed. *)
Theorem main_empty_mapping_halts (w : widgets) (events evl : list st_event)
    (items : list (string * file_like)) (excel : excel_file) :
  (length (uploaded_csvs w) ≤ MAX_CSV_FILES)%nat →
  prepare_inputs w = (events, Ret items) →
  items ≠ [] →
  generate_clicked w = true →
  uploaded_excel w = Some excel →
  load_channel_data excel = (evl, Ret ∅) →
  main w
  = (events ++ evl
     ++ [st_success "Loaded 0 channel IDs with names.";
         st_error "No valid channel data found in the Excel file."],
     Stopped).
Proof.
  intros Hle Hprep Hne Hclick Hexcel Hload. unfold main.
  rewrite (enforce_max_ok _ Hle), Hprep, Hclick. unfold generate.
  rewrite Hexcel. destruct items as [|item items]; [done|].
  rewrite Hload. cbn -[process_files].
  destruct (decide (∅ = ∅)) as [_|]; [|done].
  cbn. reflexivity.
Qed.

Lemma main_empty_mapping_halts_witness :
  main run_with_bad_table
  = ([st_error
        "Excel file must have at least 2 columns: Channel ID and Channel Name";
      st_success "Loaded 0 channel IDs with names.";
      st_error "No valid channel data found in the Excel file."],
     Stopped).
Proof.
  apply (main_empty_mapping_halts run_with_bad_table []
           [st_error
              "Excel file must have at least 2 columns: Channel ID and Channel Name"]
           [("report.csv", two_chunk_csv)]
           (inr (mkDataFrame 1 [[Some "UC1"]]))).
  - vm_compute. lia.
  - reflexivity.
  - discriminate.
  - reflexivity.
  - reflexivity.
  - reflexivity.
Defined.

(** X21.  A frame shown at the end of a run is never empty; it is sorted by
    (Channel Name, Asset ID), holds no (Asset ID, Channel ID) pair twice,
    and every row of it carries the label that the mapping loaded in this
    run holds for its Channel ID, a valid text. *)
Theorem main_shown_frame (w : widgets) (events : list st_event)
    (df : list mapping) :
  main w = (events, Ret (Some df)) →
  df ≠ [] ∧
  StronglySorted key_le df ∧
  NoDup (map pair_of df) ∧
  ∃ excel evl channel_dict,
    uploaded_excel w = Some excel ∧
    load_channel_data excel = (evl, Ret channel_dict) ∧
    ∀ r, r ∈ df →
         ∃ label, channel_dict !! Channel_ID r = Some label ∧
                  Channel_Name r = Some label ∧ normalized label.
Proof.
  intros (excel & evl & d & items & ev & all_results & Hclick & Hexcel &
          Hload & Hd & Hfiles & Hne & ->)%main_shows_frame.
  pose proof (process_files_frames d items [] ev all_results
    (λ frame, frame ≠ [] ∧
              Forall (λ x, ∃ chunk, x ∈ chunk_records d chunk) frame))
    as Hframes.
  assert (Forall (λ frame, frame ≠ [] ∧
            Forall (λ x, ∃ chunk, x ∈ chunk_records d chunk) frame)
            all_results) as Hall.
  { apply Hframes; [done|constructor|exact Hfiles]. }
  clear Hframes.
  assert (∀ k v, d !! k = Some v → normalized k ∧ normalized v) as Hnorm.
  { destruct excel as [e|t]; simpl in Hload.
    - injection Hload as _ <-. intros k v H. by rewrite lookup_empty in H.
    - destruct (shape1 t <? 2)%nat; injection Hload as _ <-.
      + intros k v H. by rewrite lookup_empty in H.
      + apply (foldl_add_channel_normalized (rows t) ∅
                 (map_Forall_empty _)). }
  split; [|split; [|split]].
  - intros Hnil.
    assert (drop_duplicates (concat all_results) = []) as Hdd.
    { apply Permutation_nil_r. unfold final_df in Hnil. rewrite <- Hnil.
      symmetry. apply sort_values_perm. }
    destruct all_results as [|frame rest]; [done|].
    apply Forall_cons in Hall as [[Hframe _] _].
    destruct frame as [|r frame]; [done|].
    unfold drop_duplicates in Hdd. simpl in Hdd.
    rewrite decide_False in Hdd by apply not_elem_of_empty. discriminate.
  - apply sort_values_sorted.
  - unfold final_df. rewrite sort_values_perm.
    apply drop_duplicates_from_NoDup.
  - exists excel, evl, d. split; [done|]. split; [done|].
    intros r Hr. unfold final_df in Hr. rewrite sort_values_perm in Hr.
    apply drop_duplicates_from_elem in Hr as [Hr _].
    apply list_elem_of_In, in_concat in Hr as (frame & Hframe & Hr).
    apply list_elem_of_In in Hframe, Hr.
    rewrite Forall_forall in Hall.
    destruct (Hall frame Hframe) as [_ Hrecs].
    rewrite Forall_forall in Hrecs.
    destruct (Hrecs r Hr) as [chunk Hchunk].
    apply chunk_records_sound in Hchunk as (Hname & [label Hlabel] & _).
    exists label. split; [done|]. split; [congruence|].
    by destruct (Hnorm _ _ Hlabel).
Qed.

Lemma main_shown_frame_witness :
  [mkMapping "A1" "UC1" (Some "Renamed");
   mkMapping "A2" "UC2" (Some "Second")] ≠ [].
Proof.
  eapply (main_shown_frame run_with_uploads). vm_compute. reflexivity.
Defined.

(** X22.  The loop over the input files writes exactly one status line per
    file (beside the warnings of the files that failed), keeps the frames
    collected so far and adds at most one frame per file. *)
Theorem process_files_one_line_per_file
    (channel_dict : gmap string string)
    (items : list (string * file_like))
    (all_results final : list (list mapping)) (events : list st_event) :
  process_files channel_dict items all_results = (events, Ret final) →
  length (filter (λ e, is_write e = true) events) = length items ∧
  all_results `prefix_of` final ∧
  (length final ≤ length all_results + length items)%nat.
Proof. apply process_files_lines. Qed.

Lemma process_files_one_line_per_file_witness :
  length (filter (λ e, is_write e = true)
            [st_write "✅ Found 2 matches in report.csv";
             st_warning ("Error reading broken.csv: " +:+ low_memory_error);
             st_write "⚪ No matches in broken.csv"]) = 2%nat.
Proof.
  eapply (process_files_one_line_per_file sample_dict
            [("report.csv", two_chunk_csv); ("broken.csv", unreadable_csv)]
            []).
  vm_compute. reflexivity.
Defined.

Lemma final_df_bounds_witness :
  mkMapping "A1" "UC1" (Some "Renamed")
  ∈ concat [ [mkMapping "A1" "UC1" (Some "Renamed")];
             [mkMapping "A1" "UC1" (Some "Renamed")] ].
Proof.
  apply (proj1 (final_df_bounds
                  [ [mkMapping "A1" "UC1" (Some "Renamed")];
                    [mkMapping "A1" "UC1" (Some "Renamed")] ])).
  vm_compute. left.
Defined.
